(** * Change-aware polling caches of the Goodreads and Spotify workers

    Shallow embedding of the two Cloudflare workers of the repository:
    - [goodreads-worker.js]    (module [Goodreads]),
    - the older Goodreads worker [part_001] (module [GoodreadsV1]),
    - the Spotify worker [part_002] (module [Spotify]).

    Each handler runs in a small state/exception monad over a world that
    holds the KV namespace (one key per worker), whether the KV backend is
    reachable, and a trace of the externally visible effects (upstream
    HTTP calls and KV puts).  The results of the upstream calls are given
    to the handler as arguments ([outcome]), one per call the source makes.

    Time: the Workers runtime only advances [Date.now()] across I/O, so a
    handler sees one clock value before its upstream calls ([t_read], used
    by the cache check) and one after them ([t_write], used by the puts). *)

From Stdlib Require Import ZArith Ascii String List Bool Lia.
Import ListNotations.
Open Scope string_scope.
Open Scope Z_scope.

(** ** KV store, effects and the handler monad *)

Module Kv.

(** A value stored under the worker's single key, with the absolute time
    (ms) at which KV expires it, if it was put with [expirationTtl]. *)
Record stored (E : Type) := mkStored { sval : E; sexp : option Z }.
Arguments mkStored {E} _ _.
Arguments sval {E} _.
Arguments sexp {E} _.

Inductive event (E : Type) :=
| EUpstream (what : string)      (* an HTTP call to Goodreads / Spotify *)
| EPut (s : stored E).           (* a successful KV put *)
Arguments EUpstream {E} _.
Arguments EPut {E} _.

Record world (E : Type) := mkWorld {
  kv_up : bool;                   (* false: every KV get / put rejects *)
  store : option (stored E);
  trace : list (event E)          (* most recent effect first *)
}.
Arguments mkWorld {E} _ _ _.
Arguments kv_up {E} _.
Arguments store {E} _.
Arguments trace {E} _.

(** Completion of a JS async function: a value or a thrown error. *)
Inductive result (A : Type) := Ok (a : A) | Throw (msg : string).
Arguments Ok {A} _.
Arguments Throw {A} _.

(** Result of one upstream call (an HTTP request and its decoding). *)
Inductive outcome (A : Type) := Fetched (a : A) | FetchFailed (msg : string).
Arguments Fetched {A} _.
Arguments FetchFailed {A} _.

Definition M (E A : Type) := world E -> result A * world E.

Definition ret {E A} (a : A) : M E A := fun w => (Ok a, w).
Definition throw {E A} (m : string) : M E A := fun w => (Throw m, w).
Definition bind {E A B} (m : M E A) (k : A -> M E B) : M E B :=
  fun w => match m w with
           | (Ok a, w') => k a w'
           | (Throw e, w') => (Throw e, w')
           end.
(** [try { x = await m } catch (e) { ... }]: the completion as a value. *)
Definition attempt {E A} (m : M E A) : M E (result A) :=
  fun w => match m w with
           | (r, w') => (Ok r, w')
           end.

(** [try { m } catch (e) { h(e) }] *)
Definition catch {E A} (m : M E A) (h : string -> M E A) : M E A :=
  fun w => match m w with
           | (Ok a, w') => (Ok a, w')
           | (Throw e, w') => h e w'
           end.

Notation "x <- m ;; k" := (bind m (fun x => k))
  (at level 61, m at next level, right associativity).
Notation "m ;;; k" := (bind m (fun _ => k))
  (at level 61, right associativity).

(** Value visible under the key at time [t] (expired values are gone). *)
Definition lookup {E} (t : Z) (st : option (stored E)) : option E :=
  match st with
  | None => None
  | Some s => match sexp s with
              | Some x => if x <=? t then None else Some (sval s)
              | None => Some (sval s)
              end
  end.

(** [await env.KV.get(key, 'json')] *)
Definition kv_get {E} (t : Z) : M E (option E) :=
  fun w => if kv_up w then (Ok (lookup t (store w)), w)
           else (Throw "KV get failed", w).

(** [await env.KV.put(key, JSON.stringify(v), {expirationTtl: ttl})] *)
Definition kv_put {E} (t : Z) (ttl : option Z) (v : E) : M E unit :=
  fun w => if kv_up w then
             let s := mkStored v (option_map (fun sec => t + sec * 1000) ttl) in
             (Ok tt, mkWorld (kv_up w) (Some s) (EPut s :: trace w))
           else (Throw "KV put failed", w).

(** One upstream HTTP call, with the result the network gives it. *)
Definition upstream {E A} (what : string) (o : outcome A) : M E A :=
  fun w => let w' := mkWorld (kv_up w) (store w) (EUpstream what :: trace w) in
           match o with
           | Fetched a => (Ok a, w')
           | FetchFailed m => (Throw m, w')
           end.

Fixpoint count_puts {E} (l : list (event E)) : nat :=
  match l with
  | [] => 0%nat
  | EPut _ :: l' => S (count_puts l')
  | EUpstream _ :: l' => count_puts l'
  end.

Fixpoint count_upstream {E} (l : list (event E)) : nat :=
  match l with
  | [] => 0%nat
  | EUpstream _ :: l' => S (count_upstream l')
  | EPut _ :: l' => count_upstream l'
  end.

(** JS truthiness of a numeric timestamp ([undefined] is [None]). *)
Definition truthy_num (x : Z) : bool := negb (x =? 0).

(** JS truthiness of an object-or-null value. *)
Definition truthy_obj {A} (x : option A) : bool :=
  match x with Some _ => true | None => false end.

(** HTTP response of a [fetch] handler: a JSON body or the 500 error. *)
Inductive response (P : Type) := RespJSON (body : P) | RespError500 (msg : string).
Arguments RespJSON {P} _.
Arguments RespError500 {P} _.

End Kv.

Import Kv.

(** ** The reading-list record *)

Record book := mkBook { title : string; author : string; cover : string; link : string }.

(** ** goodreads-worker.js *)

Module Goodreads.

(** [parseGoodreadsRSS] result: [{ current, previous }]. *)
Record books := mkBooks { current : option book; previous : option book }.

(** KV value: [{ data: books, timestamp: Date.now() }]. *)
Record entry := mkEntry { data : books; timestamp : Z }.

Definition CACHE_TTL_MS : Z := 3600000.

(** [hasBookChanged(newBooks, existingBooks)] *)
Definition hasBookChanged (newBooks : books) (existingBooks : option books) : bool :=
  match existingBooks with
  | None => true
  | Some eb =>
      match current eb with
      | None => true
      | Some ec =>
          match current newBooks with
          | None => false
          | Some nc => negb (String.eqb (title nc) (title ec))
                       || negb (String.eqb (author nc) (author ec))
          end
      end
  end.

(** [cached?.timestamp && (Date.now() - cached.timestamp < CACHE_TTL_MS)] *)
Definition cacheValid (cached : option entry) (now : Z) : bool :=
  match cached with
  | Some c => truthy_num (timestamp c) && (now - timestamp c <? CACHE_TTL_MS)
  | None => false
  end.

(** Body of the [fetch] handler inside its outer [try]. *)
Definition fetch_body (t_read t_write : Z) (rss : outcome books)
  : M entry (response books) :=
  cached <- kv_get t_read ;;
  if cacheValid cached t_read then
    match cached with
    | Some c => ret (RespJSON (data c))
    | None => ret (RespError500 "unreachable")
    end
  else
    r <- attempt (upstream "goodreads rss" rss) ;;
    match r with
    | Throw fetchError =>
        (* If fetch fails but we have cached data, return stale cache *)
        match cached with
        | Some c => ret (RespJSON (data c))
        | None => throw fetchError
        end
    | Ok books =>
        let existingBooks := option_map data cached in
        let bookChanged := hasBookChanged books existingBooks in
        (if bookChanged then
           kv_put t_write None (mkEntry books t_write)
         else match cached with
              | None =>
                  (* No existing cache, save even if null *)
                  kv_put t_write None (mkEntry books t_write)
              | Some c =>
                  (* Just update timestamp ([data: existingBooks]) *)
                  kv_put t_write None (mkEntry (data c) t_write)
              end) ;;;
        ret (RespJSON books)
    end.

(** [async fetch(request, env)] for a GET request. *)
Definition fetch (t_read t_write : Z) (rss : outcome books) : M entry (response books) :=
  catch (fetch_body t_read t_write rss) (fun e => ret (RespError500 e)).

(** [async scheduled(event, env, ctx)] *)
Definition scheduled (now : Z) (rss : outcome books) : M entry unit :=
  catch
    (existingCache <- kv_get now ;;
     let existingBooks := option_map data existingCache in
     r <- attempt (upstream "goodreads rss" rss) ;;
     match r with
     | Throw _ => ret tt   (* Don't update cache on fetch failure *)
     | Ok books =>
         let bookChanged := hasBookChanged books existingBooks in
         if negb bookChanged && truthy_obj existingBooks then ret tt
         else kv_put now None (mkEntry books now)
     end)
    (fun _ => ret tt).

End Goodreads.

(** ** The older Goodreads worker (part_001) *)

Module GoodreadsV1.

(** [parseGoodreadsRSS] result: [{ current: books[0] || null }]. *)
Record books := mkBooks { current : option book }.

Record entry := mkEntry { data : books; timestamp : Z }.

(** Strict (in)equality on a possibly [undefined] string. *)
Definition opt_str_eqb (a b : option string) : bool :=
  match a, b with
  | Some x, Some y => String.eqb x y
  | None, None => true
  | _, _ => false
  end.

(** [!existingBooks?.current ||
     books.current?.title !== existingBooks?.current?.title ||
     books.current?.author !== existingBooks?.current?.author] *)
Definition bookChanged (newBooks : books) (existingBooks : option books) : bool :=
  match option_map current existingBooks with
  | None | Some None => true
  | Some (Some ec) =>
      negb (opt_str_eqb (option_map title (current newBooks)) (Some (title ec)))
      || negb (opt_str_eqb (option_map author (current newBooks)) (Some (author ec)))
  end.

(** [cached && cached.timestamp && Date.now() - cached.timestamp < 3600000] *)
Definition cacheValid (cached : option entry) (now : Z) : bool :=
  match cached with
  | Some c => truthy_num (timestamp c) && (now - timestamp c <? 3600000)
  | None => false
  end.

Definition fetch_body (t_read t_write : Z) (rss : outcome books)
  : M entry (response books) :=
  cached <- kv_get t_read ;;
  if cacheValid cached t_read then
    match cached with
    | Some c => ret (RespJSON (data c))
    | None => ret (RespError500 "unreachable")
    end
  else
    (* [await fetch(rssUrl)], [await response.text()], then parse;
       the HTTP status is not checked *)
    books <- upstream "goodreads rss" rss ;;
    let existingBooks := option_map data cached in
    (if bookChanged books existingBooks || negb (truthy_obj existingBooks) then
       kv_put t_write None (mkEntry books t_write)
     else ret tt) ;;;
    ret (RespJSON books).

Definition fetch (t_read t_write : Z) (rss : outcome books) : M entry (response books) :=
  catch (fetch_body t_read t_write rss) (fun e => ret (RespError500 e)).

Definition scheduled (now : Z) (rss : outcome books) : M entry unit :=
  catch
    (existingCache <- kv_get now ;;
     let existingBooks := option_map data existingCache in
     books <- upstream "goodreads rss" rss ;;
     if negb (bookChanged books existingBooks) && truthy_obj existingBooks then ret tt
     else kv_put now None (mkEntry books now))
    (fun _ => ret tt).

End GoodreadsV1.

(** ** spotify-worker.js (part_002) *)

Module Spotify.

(** The normalised track built by [getNowPlaying] / [getRecentlyPlayed].
    [trackId] is [item.id], [None] when Spotify gives [null]. *)
Record track := mkTrack {
  isPlaying : bool;
  title : string;
  artist : string;
  album : string;
  albumArt : string;
  songUrl : string;
  trackId : option string;
  type : string
}.

(** KV value: [{ data: track, timestamp, lastRun }]. *)
Record entry := mkEntry { data : option track; timestamp : Z; lastRun : Z }.

Definition KV_TTL : Z := 300.
Definition SCHEDULE_INTERVAL : Z := 120000.
Definition FETCH_CACHE_TTL : Z := 30000.

Definition truthy_id (id : option string) : bool :=
  match id with Some s => negb (String.eqb s "") | None => false end.

Definition opt_str_eqb (a b : option string) : bool :=
  match a, b with
  | Some x, Some y => String.eqb x y
  | None, None => true
  | _, _ => false
  end.

(** [JSON.stringify(track1) === JSON.stringify(track2)]: both objects are
    built with the same keys in the same order, so the serialisations are
    equal exactly when every field is. *)
Definition json_eqb (a b : track) : bool :=
  Bool.eqb (isPlaying a) (isPlaying b)
  && String.eqb (title a) (title b)
  && String.eqb (artist a) (artist b)
  && String.eqb (album a) (album b)
  && String.eqb (albumArt a) (albumArt b)
  && String.eqb (songUrl a) (songUrl b)
  && opt_str_eqb (trackId a) (trackId b)
  && String.eqb (type a) (type b).

(** [tracksEqual(track1, track2)] *)
Definition tracksEqual (track1 track2 : option track) : bool :=
  match track1, track2 with
  | None, None => true
  | None, Some _ | Some _, None => false
  | Some t1, Some t2 =>
      if truthy_id (trackId t1) && truthy_id (trackId t2) then
        opt_str_eqb (trackId t1) (trackId t2) && Bool.eqb (isPlaying t1) (isPlaying t2)
      else json_eqb t1 t2
  end.

(** [cached && cached.timestamp && Date.now() - cached.timestamp < FETCH_CACHE_TTL] *)
Definition cacheFresh (cached : option entry) (now : Z) : bool :=
  match cached with
  | Some c => truthy_num (timestamp c) && (now - timestamp c <? FETCH_CACHE_TTL)
  | None => false
  end.

(** [cached?.data || null] *)
Definition dataOf (cached : option entry) : option track :=
  match cached with Some c => data c | None => None end.

(** Body of [fetch] inside its [try]; [tok], [np], [rp] are the results of
    [getAccessToken], [getNowPlaying] and [getRecentlyPlayed]. *)
Definition fetch_body (t_read t_write : Z) (tok : outcome unit)
  (np rp : outcome (option track)) : M entry (response (option track)) :=
  cached <- kv_get t_read ;;
  if cacheFresh cached t_read then
    match cached with
    | Some c => ret (RespJSON (data c))
    | None => ret (RespError500 "unreachable")
    end
  else
    _ <- upstream "token" tok ;;
    nowPlaying <- upstream "currently-playing" np ;;
    track <- match nowPlaying with
             | Some t => ret (Some t)
             | None => upstream "recently-played" rp
             end ;;
    let existingTrack := dataOf cached in
    (if negb (tracksEqual track existingTrack) then
       kv_put t_write (Some KV_TTL) (mkEntry track t_write t_write)
     else ret tt) ;;;
    ret (RespJSON track).

Definition fetch (t_read t_write : Z) (tok : outcome unit)
  (np rp : outcome (option track)) : M entry (response (option track)) :=
  catch (fetch_body t_read t_write tok np rp) (fun e => ret (RespError500 e)).

(** [if (lastRun) { if (now - lastRun < SCHEDULE_INTERVAL) return; }] *)
Definition tooSoon (existingData : option entry) (now : Z) : bool :=
  match existingData with
  | Some e => truthy_num (lastRun e) && (now - lastRun e <? SCHEDULE_INTERVAL)
  | None => false
  end.

(** The inner [try] block of [scheduled]: [Some t] continues with
    [newTrack = t]; [None] is one of its early [return]s. *)
Definition latest (np rp : outcome (option track)) : M entry (option track) :=
  newTrack <- upstream "currently-playing" np ;;
  match newTrack with
  | Some t => ret (Some t)
  | None =>
      recentlyPlayed <- upstream "recently-played" rp ;;
      match recentlyPlayed with
      | Some t => ret (Some t)
      | None => ret None   (* keep existing / no data at all: skip write *)
      end
  end.

Definition scheduled (now : Z) (tok : outcome unit) (np rp : outcome (option track))
  : M entry unit :=
  catch
    (existingData <- kv_get now ;;
     if tooSoon existingData now then ret tt
     else
       let existingTrack := dataOf existingData in
       _ <- upstream "token" tok ;;
       r <- attempt (latest np rp) ;;
       match r with
       | Throw _ => ret tt          (* API failure: skip write *)
       | Ok None => ret tt
       | Ok (Some newTrack) =>
           if tracksEqual (Some newTrack) existingTrack then ret tt
           else kv_put now (Some KV_TTL) (mkEntry (Some newTrack) now now)
       end)
    (fun _ => ret tt).

End Spotify.

(** ** Sequences of invocations *)

(** Run the handler invocations of a list one after the other. *)
Fixpoint run_seq {E A} (l : list (M E A)) (w : world E) : world E :=
  match l with
  | [] => w
  | m :: l' => run_seq l' (snd (m w))
  end.

Module Polls.

(** An invocation of the Spotify worker: a GET request (with its two
    clock readings) or a cron tick. *)
Inductive poll := OnDemand (t_read t_write : Z) | Tick (now : Z).

Definition spotify_poll (tok : outcome unit) (np rp : outcome (option Spotify.track))
  (p : poll) : M Spotify.entry unit :=
  match p with
  | OnDemand tr tw => Spotify.fetch tr tw tok np rp ;;; ret tt
  | Tick t => Spotify.scheduled t tok np rp
  end.

(** All clock readings of the poll lie in [[T, T + KV_TTL s)]. *)
Definition in_window (T : Z) (p : poll) : Prop :=
  match p with
  | OnDemand tr tw => T <= tr < T + Spotify.KV_TTL * 1000 /\ T <= tw
  | Tick t => T <= t < T + Spotify.KV_TTL * 1000
  end.

(** The record the Spotify upstream calls yield (token, currently-playing,
    then recently-played when nothing plays), or [None] when one of the
    calls that is reached fails. *)
Definition adapter_result (tok : outcome unit) (np rp : outcome (option Spotify.track))
  : option (option Spotify.track) :=
  match tok, np with
  | FetchFailed _, _ => None
  | Fetched _, FetchFailed _ => None
  | Fetched _, Fetched (Some t) => Some (Some t)
  | Fetched _, Fetched None =>
      match rp with Fetched r => Some r | FetchFailed _ => None end
  end.

(** After a run of Spotify polls all seeing [tok], [np], [rp] and
    starting from an empty KV with [n] puts in the trace: either nothing
    was written, or exactly one put stored the adapter's record at a time
    [x >= T] with the 300 s TTL. *)
Definition written_once (T : Z) (tok : outcome unit) (np rp : outcome (option Spotify.track))
  (n : nat) (w : world Spotify.entry) : Prop :=
  (count_puts (trace w) = n /\ store w = None) \/
  (count_puts (trace w) = S n /\
   exists tr x, T <= x /\
     store w = Some (mkStored (Spotify.mkEntry tr x x) (Some (x + Spotify.KV_TTL * 1000))) /\
     adapter_result tok np rp = Some tr).

End Polls.

(** ** Concrete inputs *)

Module Samples.

Definition dune_a := mkBook "Dune" "Herbert" "https://img/dune-a.jpg" "https://gr/dune".
Definition dune_b := mkBook "Dune" "Herbert" "https://img/dune-b.jpg" "https://gr/dune".

Definition gr_dune_a := Goodreads.mkBooks (Some dune_a) None.
Definition gr_dune_b := Goodreads.mkBooks (Some dune_b) None.
Definition gr_empty := Goodreads.mkBooks None None.

(** A Goodreads KV holding [Dune] written at t = 1000. *)
Definition gr_world : world Goodreads.entry :=
  mkWorld true (Some (mkStored (Goodreads.mkEntry gr_dune_a 1000) None)) [].

Definition gr_empty_world : world Goodreads.entry := mkWorld true None [].

Definition v1_dune_a := GoodreadsV1.mkBooks (Some dune_a).
Definition v1_dune_b := GoodreadsV1.mkBooks (Some dune_b).

Definition v1_world : world GoodreadsV1.entry :=
  mkWorld true (Some (mkStored (GoodreadsV1.mkEntry v1_dune_a 1000) None)) [].

Definition t1_playing :=
  Spotify.mkTrack true "Song" "Artist" "Album" "https://img/a.jpg"
    "https://open/t1" (Some "T1") "track".

(** Two local-file tracks (Spotify gives them [id: null]) that differ
    only in their album art. *)
Definition local_a :=
  Spotify.mkTrack true "Song" "Artist" "Album" "https://img/a.jpg" "" None "track".
Definition local_b :=
  Spotify.mkTrack true "Song" "Artist" "Album" "https://img/b.jpg" "" None "track".

(** A Spotify KV holding [T1], written at t = 1000 with the 300 s TTL. *)
Definition sp_world : world Spotify.entry :=
  mkWorld true
    (Some (mkStored (Spotify.mkEntry (Some t1_playing) 1000 1000) (Some 301000))) [].

Definition sp_empty_world : world Spotify.entry := mkWorld true None [].

End Samples.

(** ** Proof automation *)

(** Unfold the monad and the KV primitives, and split on every test. *)
Ltac mrun :=
  repeat (unfold bind, ret, throw, catch, attempt, kv_get, kv_put, upstream in *;
          cbn [fst snd kv_up store trace sval sexp option_map lookup] in *;
          match goal with
          | H : ?x = _ |- context [?x] => rewrite H
          | |- context [match ?x with _ => _ end] =>
              lazymatch x with
              | context [match _ with _ => _ end] => fail
              | _ => destruct x eqn:?
              end
          | |- context [if ?x then _ else _] => destruct x eqn:?
          end);
  unfold bind, ret, throw, catch, attempt, kv_get, kv_put, upstream in *;
  cbn [fst snd kv_up store trace sval sexp option_map lookup count_puts] in *.

(** ** parseGoodreadsRSS (both Goodreads workers)

    Strings are JavaScript strings whose UTF-16 code units are all below
    256, one [ascii] (8-bit) character per code unit. *)

Module Rss.

Local Open Scope list_scope.

Definition lstr (s : string) : list ascii := list_ascii_of_string s.
Definition to_str (l : list ascii) : string := string_of_list_ascii l.

(** [s] starts with [p]. *)
Fixpoint prefixb (p s : list ascii) : bool :=
  match p, s with
  | [], _ => true
  | _ :: _, [] => false
  | a :: p', b :: s' => Ascii.eqb a b && prefixb p' s'
  end.

(** Leftmost occurrence of [pat]: the text before it and the text after. *)
Fixpoint break_on (pat s : list ascii) {struct s} : option (list ascii * list ascii) :=
  if prefixb pat s then Some ([], skipn (length pat) s)
  else match s with
       | [] => None
       | c :: s' => match break_on pat s' with
                    | Some (b, a) => Some (c :: b, a)
                    | None => None
                    end
       end.

Definition ITEM_OPEN := lstr "<item>".
Definition ITEM_CLOSE := lstr "</item>".

(** [xml.match(/<item>[\s\S]*?<\/item>/g) || []]: the regex is tried at
    each position in turn; a match resumes the scan after its end.  Every
    step consumes a character, so [length s] is enough fuel
    ([match_items_fuel] below). *)
Fixpoint match_items (fuel : nat) (s : list ascii) : list (list ascii) :=
  match fuel with
  | O => []
  | S f =>
      match s with
      | [] => []
      | _ :: s' =>
          if prefixb ITEM_OPEN s then
            match break_on ITEM_CLOSE (skipn (length ITEM_OPEN) s) with
            | Some (body, rest) => (ITEM_OPEN ++ body ++ ITEM_CLOSE) :: match_items f rest
            | None => match_items f s'
            end
          else match_items f s'
      end
  end.

Definition items_of (xml : list ascii) : list (list ascii) := match_items (length xml) xml.

(** [<field><![CDATA[([\s\S]*?)\]\]><\/field>]: first position where the
    opening matches and a closing follows; the shortest content. *)
Fixpoint cdata_match (opn cls s : list ascii) : option (list ascii) :=
  match s with
  | [] => None
  | _ :: s' =>
      if prefixb opn s then
        match break_on cls (skipn (length opn) s) with
        | Some (v, _) => Some v
        | None => cdata_match opn cls s'
        end
      else cdata_match opn cls s'
  end.

(** Longest prefix without ['<'], and the rest. *)
Fixpoint span_not_lt (s : list ascii) : list ascii * list ascii :=
  match s with
  | [] => ([], [])
  | c :: s' => if Ascii.eqb c "<"%char then ([], s)
               else let (r, t) := span_not_lt s' in (c :: r, t)
  end.

(** The regex [<field>], then a group of [[^<]] repeated, then [<\/field>]:
    the group can only be followed by the closing tag (which starts with
    ['<']) when it takes the whole run of non-['<'] characters. *)
Fixpoint plain_match (opn cls s : list ascii) : option (list ascii) :=
  match s with
  | [] => None
  | _ :: s' =>
      if prefixb opn s then
        let (run, rest) := span_not_lt (skipn (length opn) s) in
        if prefixb cls rest then Some run else plain_match opn cls s'
      else plain_match opn cls s'
  end.

(** [String.prototype.trim] on code units below 256: TAB, LF, VT, FF, CR,
    SPACE and NO-BREAK SPACE. *)
Definition is_ws (c : ascii) : bool :=
  match nat_of_ascii c with
  | 9 | 10 | 11 | 12 | 13 | 32 | 160 => true
  | _ => false
  end%nat.

Fixpoint ltrim (s : list ascii) : list ascii :=
  match s with
  | [] => []
  | c :: s' => if is_ws c then ltrim s' else s
  end.

Definition trim (s : list ascii) : list ascii := rev (ltrim (rev (ltrim s))).

Definition cdata_open (field : string) := lstr ("<" ++ field ++ "><![CDATA[")%string.
Definition cdata_close (field : string) := lstr ("]]></" ++ field ++ ">")%string.
Definition plain_open (field : string) := lstr ("<" ++ field ++ ">")%string.
Definition plain_close (field : string) := lstr ("</" ++ field ++ ">")%string.

(** [getField(field)] inside one item. *)
Definition getField (item : list ascii) (field : string) : string :=
  match cdata_match (cdata_open field) (cdata_close field) item with
  | Some v => to_str (trim v)
  | None =>
      match plain_match (plain_open field) (plain_close field) item with
      | Some v => to_str (trim v)
      | None => ""
      end
  end.

Definition book_of_item (item : list ascii) : book :=
  mkBook (getField item "title") (getField item "author_name")
         (getField item "book_large_image_url") (getField item "link").

(** goodreads-worker.js [parseGoodreadsRSS]. *)
Definition parseGoodreadsRSS (xml : string) : Goodreads.books :=
  let items := items_of (lstr xml) in
  match items with
  | [] => Goodreads.mkBooks None None
  | _ => let books := map book_of_item items in
         Goodreads.mkBooks (nth_error books 0) (nth_error books 1)
  end.

(** part_001 [parseGoodreadsRSS]: only the first book. *)
Definition parseGoodreadsRSS_v1 (xml : string) : GoodreadsV1.books :=
  let items := items_of (lstr xml) in
  match items with
  | [] => GoodreadsV1.mkBooks None
  | _ => let books := map book_of_item items in
         GoodreadsV1.mkBooks (nth_error books 0)
  end.

(** A Goodreads-style feed carrying given books, each field either in a
    CDATA section or as plain text. *)
Definition render_field (cdata : bool) (field : string) (v : string) : list ascii :=
  if cdata then cdata_open field ++ lstr v ++ cdata_close field
  else plain_open field ++ lstr v ++ plain_close field.

Definition item_body (cdata : bool) (b : book) : list ascii :=
  render_field cdata "title" (title b) ++ render_field cdata "link" (link b)
  ++ render_field cdata "book_large_image_url" (cover b)
  ++ render_field cdata "author_name" (author b).

Definition render_item (cdata : bool) (b : book) : list ascii :=
  ITEM_OPEN ++ item_body cdata b ++ ITEM_CLOSE.

Definition render_feed (cdata : bool) (bs : list book) : string :=
  to_str (lstr "<rss><channel><title>Currently reading</title>"
          ++ concat (map (render_item cdata) bs) ++ lstr "</channel></rss>").

(** Neither a tag opening ['<'] nor a CDATA end [']']. *)
Definition no_tag_chars (v : list ascii) : bool :=
  forallb (fun c => negb (Ascii.eqb c "<"%char) && negb (Ascii.eqb c "]"%char)) v.

(** A field value that survives the round trip: no ['<'], no [']'] and
    nothing for [trim] to remove. *)
Definition clean_value (v : string) : bool :=
  no_tag_chars (lstr v) && String.eqb (to_str (trim (lstr v))) v.

Definition clean_book (b : book) : bool :=
  clean_value (title b) && clean_value (author b) && clean_value (cover b)
  && clean_value (link b).

(** [p] and [x] differ within their common length: [p] does not start at
    the beginning of [x], whatever follows [x]. *)
Fixpoint clash (p x : list ascii) : bool :=
  match p, x with
  | a :: p', b :: x' => if Ascii.eqb a b then clash p' x' else true
  | _, _ => false
  end.

(** No occurrence of [p] starts inside [x], whatever follows [x]. *)
Fixpoint avoids (p x : list ascii) : bool :=
  match x with
  | [] => true
  | _ :: x' => clash p x && avoids p x'
  end.

(** [s.includes(p)] *)
Fixpoint contains (p s : list ascii) : bool :=
  prefixb p s || match s with [] => false | _ :: s' => contains p s' end.

Definition bad_head (p : list ascii) : bool :=
  match p with
  | c :: _ => Ascii.eqb c "<"%char || Ascii.eqb c "]"%char
  | [] => false
  end.

End Rss.

(** ** Spotify Web API adapters of spotify-worker.js (part_002)

    [getAccessToken], [getNowPlaying] and [getRecentlyPlayed] turn an HTTP
    response into the [outcome] the handlers consume.  The decoded JSON
    is given as typed records holding the fields the adapters read: a
    field that may be missing or [null] is an [option]; the item [name]
    is always a string in Spotify's track and episode objects. *)

Module SpotifyApi.

(** [`${n}`] for an integer. *)
Fixpoint dec_aux (fuel : nat) (n : Z) (acc : string) : string :=
  match fuel with
  | O => acc
  | S f =>
      let acc' := String (ascii_of_nat (48 + Z.to_nat (n mod 10))) acc in
      if n <? 10 then acc' else dec_aux f (n / 10) acc'
  end.

Definition string_of_Z (n : Z) : string :=
  if n <? 0 then "-" ++ dec_aux (S (Z.to_nat (Z.log2 (- n)))) (- n) ""
  else dec_aux (S (Z.to_nat (Z.log2 n))) n "".

(** [x || d] for a string that may be [undefined] or [null]. *)
Definition or_str (x : option string) (d : string) : string :=
  match x with
  | Some s => if String.eqb s "" then d else s
  | None => d
  end.

(** [a || b] where both sides may be [undefined]. *)
Definition or_opt (a b : option string) : option string :=
  match a with
  | Some s => if String.eqb s "" then b else a
  | None => b
  end.

(** [Array.prototype.join(sep)] *)
Fixpoint join (sep : string) (l : list string) : string :=
  match l with
  | [] => ""
  | [x] => x
  | x :: l' => x ++ sep ++ join sep l'
  end.

Record image := mkImage { url : option string }.
Record artist := mkArtist { artist_name : option string }.
Record album := mkAlbum { album_name : option string; album_images : option (list image) }.
Record show := mkShow { show_name : option string; show_images : option (list image) }.

(** A track or episode object. *)
Record item := mkItem {
  name : string;
  item_type : option string;
  id : option string;
  artists : option (list artist);
  item_album : option album;
  item_show : option show;
  images : option (list image);
  external_spotify : option string   (* [external_urls?.spotify] *)
}.

(** [imgs?.[0]?.url] *)
Definition first_url (imgs : option (list image)) : option string :=
  match imgs with
  | Some (i :: _) => url i
  | _ => None
  end.

(** [imgs[imgs.length - 1]?.url] *)
Definition last_url (imgs : list image) : option string :=
  match rev imgs with
  | i :: _ => url i
  | [] => None
  end.

Definition show_name_of (it : item) : option string :=
  match item_show it with Some s => show_name s | None => None end.
Definition show_first_url (it : item) : option string :=
  match item_show it with Some s => first_url (show_images s) | None => None end.
Definition album_name_of (it : item) : option string :=
  match item_album it with Some a => album_name a | None => None end.
Definition album_first_url (it : item) : option string :=
  match item_album it with Some a => first_url (album_images a) | None => None end.

(** [artists.map(a => a.name)] as [join] renders it ([undefined] as ""). *)
Definition artist_names (l : list artist) : list string :=
  map (fun a => match artist_name a with Some s => s | None => "" end) l.

(** [!responseText || responseText.trim() === ''] *)
Definition blank (s : string) : bool :=
  match Rss.trim (Rss.lstr s) with [] => true | _ => false end.

(** [getAccessToken]: [response.ok], [response.status], and whether
    [response.json()] parses ([Throw] with the parser's message if not). *)
Record token_response := mkTokenResponse { tk_ok : bool; tk_status : Z; tk_body : result unit }.

Definition getAccessToken (r : outcome token_response) : outcome unit :=
  match r with
  | FetchFailed m => FetchFailed m
  | Fetched resp =>
      if negb (tk_ok resp)
      then FetchFailed ("Failed to get access token: " ++ string_of_Z (tk_status resp))
      else match tk_body resp with
           | Ok _ => Fetched tt
           | Throw m => FetchFailed m
           end
  end.

(** The currently-playing object. *)
Record playing := mkPlaying {
  pl_item : option item;
  currently_playing_type : option string;
  is_playing : bool
}.

(** What [JSON.parse(responseText)] gives: a parse error, [null], a
    number, string, boolean or array (no [item] property), or an object. *)
Inductive np_json := NPInvalid | NPNull | NPOther | NPObject (d : playing).

Record np_response := mkNPResponse { np_status : Z; np_text : string; np_body : np_json }.

(** The artwork chain of the episode branch. *)
Definition episode_art (it : item) : string :=
  or_str
    (or_opt (first_url (images it))
       (or_opt (show_first_url it)
          (match item_show it with
           | Some s => match show_images s with
                       | Some imgs => if Nat.ltb 0 (length imgs) then last_url imgs else Some ""
                       | None => Some ""
                       end
           | None => Some ""
           end)))
    "".

(** The track [getNowPlaying] builds from [data] and [data.item]. *)
Definition now_playing_track (d : playing) (it : item) : Spotify.track :=
  let currentlyPlayingType := or_opt (currently_playing_type d) (item_type it) in
  let isEpisode := Spotify.opt_str_eqb currentlyPlayingType (Some "episode") in
  let artist :=
    if isEpisode then or_str (show_name_of it) "Unknown Podcast"
    else match artists it with
         | Some l => if Nat.ltb 0 (length l) then join ", " (artist_names l)
                     else "Unknown Artist"
         | None => "Unknown Artist"
         end in
  let album :=
    if isEpisode then or_str (show_name_of it) "Unknown Show"
    else or_str (album_name_of it) "Unknown Album" in
  let albumArt :=
    if isEpisode then episode_art it else or_str (album_first_url it) "" in
  Spotify.mkTrack (is_playing d) (or_str (Some (name it)) "Unknown Title") artist album
    albumArt (or_str (external_spotify it) "") (id it)
    (or_str currentlyPlayingType "track").

(** [getNowPlaying(accessToken)] *)
Definition getNowPlaying (r : outcome np_response) : outcome (option Spotify.track) :=
  match r with
  | FetchFailed m => FetchFailed m
  | Fetched resp =>
      if np_status resp =? 204 then Fetched None
      else if negb (np_status resp =? 200)
      then FetchFailed ("Spotify API error: " ++ string_of_Z (np_status resp))
      else if blank (np_text resp) then Fetched None
      else match np_body resp with
           | NPInvalid => FetchFailed "Invalid JSON response from Spotify API"
           | NPNull => FetchFailed "Cannot read properties of null (reading 'item')"
           | NPOther => Fetched None
           | NPObject d =>
               match pl_item d with
               | None => Fetched None
               | Some it => Fetched (Some (now_playing_track d it))
               end
           end
  end.

(** A play-history object of the recently-played list. *)
Record play_history := mkPlayHistory { ph_track : option item; ph_episode : option item }.

(** What [response.json()] gives: a parse error, [null], a value without
    an [items] property, or an object with its [items] array. *)
Inductive rp_json :=
| RPInvalid (msg : string)
| RPNull
| RPNoItems
| RPItems (l : list play_history).

Record rp_response := mkRPResponse { rp_status : Z; rp_body : rp_json }.

(** The track [getRecentlyPlayed] builds from an item. *)
Definition recent_track (it : item) : Spotify.track :=
  let isEpisode := Spotify.opt_str_eqb (item_type it) (Some "episode")
                   || negb (truthy_obj (artists it)) in
  Spotify.mkTrack false (name it)
    (if isEpisode then or_str (show_name_of it) "Unknown Podcast"
     else or_str (option_map (fun l => join ", " (artist_names l)) (artists it))
            "Unknown Artist")
    (if isEpisode then or_str (show_name_of it) "Unknown Show"
     else or_str (album_name_of it) "Unknown Album")
    (if isEpisode then or_str (or_opt (first_url (images it)) (show_first_url it)) ""
     else or_str (album_first_url it) "")
    (or_str (external_spotify it) "")
    (id it)
    (or_str (item_type it) (if isEpisode then "episode" else "track")).

(** [getRecentlyPlayed(accessToken)] *)
Definition getRecentlyPlayed (r : outcome rp_response) : outcome (option Spotify.track) :=
  match r with
  | FetchFailed m => FetchFailed m
  | Fetched resp =>
      if negb (rp_status resp =? 200) then Fetched None
      else match rp_body resp with
           | RPInvalid m => FetchFailed m
           | RPNull => FetchFailed "Cannot read properties of null (reading 'items')"
           | RPNoItems => FetchFailed "Cannot read properties of undefined (reading '0')"
           | RPItems l =>
               let item := match nth_error l 0 with
                           | Some h => if truthy_obj (ph_track h) then ph_track h
                                       else ph_episode h
                           | None => None
                           end in
               match item with
               | None => Fetched None
               | Some it => Fetched (Some (recent_track it))
               end
           end
  end.

End SpotifyApi.

(** ** Sequences of Goodreads invocations *)

Module GrPolls.

(** An invocation of goodreads-worker.js with the result of its feed
    request (already parsed): a GET request or a cron tick. *)
Inductive call :=
| Request (t_read t_write : Z) (rss : outcome Goodreads.books)
| Cron (now : Z) (rss : outcome Goodreads.books).

Definition goodreads_call (c : call) : M Goodreads.entry unit :=
  match c with
  | Request tr tw rss => Goodreads.fetch tr tw rss ;;; ret tt
  | Cron t rss => Goodreads.scheduled t rss
  end.

(** KV holds an entry (put without expiry, as the worker does) whose
    [data.current] is a book. *)
Definition holds_book (w : world Goodreads.entry) : Prop :=
  exists e, store w = Some (mkStored e None) /\ Goodreads.current (Goodreads.data e) <> None.

End GrPolls.

(** Sample Spotify API responses. *)
Module ApiSamples.
Import SpotifyApi.

Definition song : item :=
  mkItem "Song" (Some "track") (Some "t9") (Some [mkArtist (Some "Band")])
    (Some (mkAlbum (Some "Record") (Some [mkImage (Some "https://i.scdn.co/record")])))
    None None (Some "https://open.spotify.com/track/t9").

(** The currently-playing object while [song] plays. *)
Definition playing_song : playing := mkPlaying (Some song) (Some "track") true.

(** A 204 from currently-playing: nothing is playing. *)
Definition np_nothing : np_response := mkNPResponse 204 "" NPInvalid.

(** A recently-played answer whose first entry is [song]. *)
Definition rp_song : outcome rp_response :=
  Fetched (mkRPResponse 200 (RPItems [mkPlayHistory (Some song) None])).

End ApiSamples.

(** * Properties *)

(** ** Equality lemmas *)

Lemma sp_opt_str_eqb_iff : forall a b, Spotify.opt_str_eqb a b = true <-> a = b.
Proof.
  intros [a|] [b|]; cbn; split; intro H; try congruence.
  - apply String.eqb_eq in H; subst; reflexivity.
  - inversion H; apply String.eqb_refl.
Qed.

Lemma json_eqb_iff : forall a b, Spotify.json_eqb a b = true <-> a = b.
Proof.
  intros [p1 ti1 ar1 al1 aa1 su1 id1 ty1] [p2 ti2 ar2 al2 aa2 su2 id2 ty2].
  unfold Spotify.json_eqb; cbn.
  rewrite !andb_true_iff, Bool.eqb_true_iff, !String.eqb_eq, sp_opt_str_eqb_iff.
  split.
  - intros [[[[[[[-> ->] ->] ->] ->] ->] ->] ->]; reflexivity.
  - intro H; inversion H; subst; tauto.
Qed.

Lemma tracksEqual_refl : forall t, Spotify.tracksEqual t t = true.
Proof.
  intros [t|]; cbn; [|reflexivity].
  destruct (Spotify.truthy_id (Spotify.trackId t)); cbn.
  - rewrite (proj2 (sp_opt_str_eqb_iff _ _) eq_refl), Bool.eqb_reflx; reflexivity.
  - apply json_eqb_iff; reflexivity.
Qed.

Lemma hasBookChanged_same : forall b nb,
  Goodreads.current b = Some nb -> Goodreads.hasBookChanged b (Some b) = false.
Proof.
  intros b nb H; unfold Goodreads.hasBookChanged; rewrite H, !String.eqb_refl; reflexivity.
Qed.

(** ** C7: fresh cache entries are served without fetch or write *)

(** C7. In all three on-demand handlers, when KV returns an entry whose
    timestamp is set (positive, as [Date.now()] always is) and
    [now - timestamp] is below the freshness window (1 h for Goodreads,
    30 s for Spotify), the handler responds with the entry's data and
    the world is left exactly as it was: no upstream call, no KV put. *)
Theorem fresh_entry_served_without_fetch :
  (forall (w : world Goodreads.entry) t_read t_write rss e,
     kv_up w = true -> lookup t_read (store w) = Some e ->
     0 < Goodreads.timestamp e ->
     t_read - Goodreads.timestamp e < Goodreads.CACHE_TTL_MS ->
     Goodreads.fetch t_read t_write rss w = (Ok (RespJSON (Goodreads.data e)), w)) /\
  (forall (w : world GoodreadsV1.entry) t_read t_write rss e,
     kv_up w = true -> lookup t_read (store w) = Some e ->
     0 < GoodreadsV1.timestamp e ->
     t_read - GoodreadsV1.timestamp e < 3600000 ->
     GoodreadsV1.fetch t_read t_write rss w = (Ok (RespJSON (GoodreadsV1.data e)), w)) /\
  (forall (w : world Spotify.entry) t_read t_write tok np rp e,
     kv_up w = true -> lookup t_read (store w) = Some e ->
     0 < Spotify.timestamp e ->
     t_read - Spotify.timestamp e < Spotify.FETCH_CACHE_TTL ->
     Spotify.fetch t_read t_write tok np rp w = (Ok (RespJSON (Spotify.data e)), w)).
Proof.
  split; [|split]; intros w t_read t_write; intros until e; intros Hup Hl Hpos Hlt.
  - unfold Goodreads.fetch, Goodreads.fetch_body, catch, bind, kv_get.
    rewrite Hup, Hl; unfold Goodreads.cacheValid, truthy_num.
    replace (Goodreads.timestamp e =? 0) with false by lia.
    replace (t_read - Goodreads.timestamp e <? Goodreads.CACHE_TTL_MS) with true by lia.
    reflexivity.
  - unfold GoodreadsV1.fetch, GoodreadsV1.fetch_body, catch, bind, kv_get.
    rewrite Hup, Hl; unfold GoodreadsV1.cacheValid, truthy_num.
    replace (GoodreadsV1.timestamp e =? 0) with false by lia.
    replace (t_read - GoodreadsV1.timestamp e <? 3600000) with true by lia.
    reflexivity.
  - unfold Spotify.fetch, Spotify.fetch_body, catch, bind, kv_get.
    rewrite Hup, Hl; unfold Spotify.cacheFresh, truthy_num.
    replace (Spotify.timestamp e =? 0) with false by lia.
    replace (t_read - Spotify.timestamp e <? Spotify.FETCH_CACHE_TTL) with true by lia.
    reflexivity.
Qed.

Lemma fresh_entry_served_without_fetch_witness :
  Goodreads.fetch 2000 2000 (Fetched Samples.gr_dune_b) Samples.gr_world
    = (Ok (RespJSON Samples.gr_dune_a), Samples.gr_world) /\
  GoodreadsV1.fetch 2000 2000 (Fetched Samples.v1_dune_b) Samples.v1_world
    = (Ok (RespJSON Samples.v1_dune_a), Samples.v1_world) /\
  Spotify.fetch 20000 20000 (Fetched tt) (Fetched None) (Fetched None) Samples.sp_world
    = (Ok (RespJSON (Some Samples.t1_playing)), Samples.sp_world).
Proof.
  destruct fresh_entry_served_without_fetch as [H1 [H2 H3]].
  split; [|split].
  - apply (H1 Samples.gr_world 2000 2000 _ (Goodreads.mkEntry Samples.gr_dune_a 1000));
      vm_compute; reflexivity.
  - apply (H2 Samples.v1_world 2000 2000 _ (GoodreadsV1.mkEntry Samples.v1_dune_a 1000));
      vm_compute; reflexivity.
  - apply (H3 Samples.sp_world 20000 20000 _ _ _
             (Spotify.mkEntry (Some Samples.t1_playing) 1000 1000));
      vm_compute; reflexivity.
Defined.

(** ** C9: the Goodreads on-demand refresh keeps the stored record *)

(** The on-demand step of goodreads-worker.js on a stale entry and an
    unchanged book. *)
Lemma goodreads_fetch_unchanged :
  forall (w : world Goodreads.entry) t_read t_write e b nb eb,
    kv_up w = true -> lookup t_read (store w) = Some e ->
    Goodreads.cacheValid (Some e) t_read = false ->
    Goodreads.current (Goodreads.data e) = Some eb ->
    Goodreads.current b = Some nb ->
    title nb = title eb -> author nb = author eb ->
    Goodreads.fetch t_read t_write (Fetched b) w =
      (Ok (RespJSON b),
       mkWorld true
         (Some (mkStored (Goodreads.mkEntry (Goodreads.data e) t_write) None))
         (EPut (mkStored (Goodreads.mkEntry (Goodreads.data e) t_write) None)
            :: EUpstream "goodreads rss" :: trace w)).
Proof.
  intros w t_read t_write e b nb eb Hup Hl Hst Hec Hnc Ht Ha.
  unfold Goodreads.fetch, Goodreads.fetch_body, catch, bind, kv_get.
  rewrite Hup, Hl, Hst; cbn.
  unfold Goodreads.hasBookChanged; cbn; rewrite Hec, Hnc, Ht, Ha, !String.eqb_refl.
  cbn; unfold kv_put; cbn; rewrite Hup; reflexivity.
Qed.

(** C9. In goodreads-worker.js, when KV returns a stale entry (not
    [cacheValid]) and the fetch succeeds with a current book of the same
    title and author as the stored one, the handler puts exactly one
    entry whose [data] is the previously stored [data] and whose
    [timestamp] is the write time, and responds with the fresh books. *)
Theorem goodreads_unchanged_refresh_keeps_stored_data :
  forall (w : world Goodreads.entry) t_read t_write e b nb eb,
    kv_up w = true -> lookup t_read (store w) = Some e ->
    Goodreads.cacheValid (Some e) t_read = false ->
    Goodreads.current (Goodreads.data e) = Some eb ->
    Goodreads.current b = Some nb ->
    title nb = title eb -> author nb = author eb ->
    Goodreads.fetch t_read t_write (Fetched b) w =
      (Ok (RespJSON b),
       mkWorld true
         (Some (mkStored (Goodreads.mkEntry (Goodreads.data e) t_write) None))
         (EPut (mkStored (Goodreads.mkEntry (Goodreads.data e) t_write) None)
            :: EUpstream "goodreads rss" :: trace w)).
Proof. exact goodreads_fetch_unchanged. Qed.

Lemma goodreads_unchanged_refresh_keeps_stored_data_witness :
  Goodreads.fetch 3601000 3601000 (Fetched Samples.gr_dune_b) Samples.gr_world =
    (Ok (RespJSON Samples.gr_dune_b),
     mkWorld true
       (Some (mkStored (Goodreads.mkEntry Samples.gr_dune_a 3601000) None))
       [EPut (mkStored (Goodreads.mkEntry Samples.gr_dune_a 3601000) None);
        EUpstream "goodreads rss"]).
Proof.
  apply (goodreads_unchanged_refresh_keeps_stored_data Samples.gr_world 3601000 3601000
           (Goodreads.mkEntry Samples.gr_dune_a 1000) Samples.gr_dune_b
           Samples.dune_b Samples.dune_a); vm_compute; reflexivity.
Defined.

(** ** C6: cosmetic changes on the on-demand path *)

Lemma goodreads_v1_fetch_unchanged :
  forall (w : world GoodreadsV1.entry) t_read t_write e b nb eb,
    kv_up w = true -> lookup t_read (store w) = Some e ->
    GoodreadsV1.cacheValid (Some e) t_read = false ->
    GoodreadsV1.current (GoodreadsV1.data e) = Some eb ->
    GoodreadsV1.current b = Some nb ->
    title nb = title eb -> author nb = author eb ->
    GoodreadsV1.fetch t_read t_write (Fetched b) w =
      (Ok (RespJSON b), mkWorld true (store w) (EUpstream "goodreads rss" :: trace w)).
Proof.
  intros w t_read t_write e b nb eb Hup Hl Hst Hec Hnc Ht Ha.
  unfold GoodreadsV1.fetch, GoodreadsV1.fetch_body, catch, bind, kv_get.
  rewrite Hup, Hl, Hst; cbn.
  unfold GoodreadsV1.bookChanged; cbn; rewrite Hec, Hnc; cbn.
  rewrite Ht, Ha, !String.eqb_refl, Hup; cbn; reflexivity.
Qed.

(** C6 (counterexample). With [Dune] (cover a) cached at t = 1000, an
    on-demand request of goodreads-worker.js one hour later fetching
    [Dune] with cover b does write to KV. *)
Lemma cosmetic_change_on_demand_writes :
  count_puts (trace (snd (Goodreads.fetch 3601000 3601000
                            (Fetched Samples.gr_dune_b) Samples.gr_world))) <> 0%nat.
Proof. vm_compute; discriminate. Qed.

(** C6 (amended). On a stale entry holding a book, an on-demand fetch of a
    book with the same title and author (display fields free to differ)
    responds with the freshly fetched books.  goodreads-worker.js writes
    once, re-storing the previously stored [data] with a new timestamp;
    the older worker (part_001) does not write at all. *)
Theorem cosmetic_change_on_demand :
  (forall (w : world Goodreads.entry) t_read t_write e b nb eb,
     kv_up w = true -> lookup t_read (store w) = Some e ->
     Goodreads.cacheValid (Some e) t_read = false ->
     Goodreads.current (Goodreads.data e) = Some eb ->
     Goodreads.current b = Some nb ->
     title nb = title eb -> author nb = author eb ->
     fst (Goodreads.fetch t_read t_write (Fetched b) w) = Ok (RespJSON b) /\
     trace (snd (Goodreads.fetch t_read t_write (Fetched b) w)) =
       EPut (mkStored (Goodreads.mkEntry (Goodreads.data e) t_write) None)
         :: EUpstream "goodreads rss" :: trace w) /\
  (forall (w : world GoodreadsV1.entry) t_read t_write e b nb eb,
     kv_up w = true -> lookup t_read (store w) = Some e ->
     GoodreadsV1.cacheValid (Some e) t_read = false ->
     GoodreadsV1.current (GoodreadsV1.data e) = Some eb ->
     GoodreadsV1.current b = Some nb ->
     title nb = title eb -> author nb = author eb ->
     fst (GoodreadsV1.fetch t_read t_write (Fetched b) w) = Ok (RespJSON b) /\
     snd (GoodreadsV1.fetch t_read t_write (Fetched b) w) =
       mkWorld true (store w) (EUpstream "goodreads rss" :: trace w)).
Proof.
  split; intros w t_read t_write e b nb eb Hup Hl Hst Hec Hnc Ht Ha.
  - rewrite (goodreads_fetch_unchanged w t_read t_write e b nb eb); auto.
  - rewrite (goodreads_v1_fetch_unchanged w t_read t_write e b nb eb); auto.
Qed.

Lemma cosmetic_change_on_demand_witness :
  fst (Goodreads.fetch 3601000 3601000 (Fetched Samples.gr_dune_b) Samples.gr_world)
    = Ok (RespJSON Samples.gr_dune_b) /\
  snd (GoodreadsV1.fetch 3601000 3601000 (Fetched Samples.v1_dune_b) Samples.v1_world)
    = mkWorld true (store Samples.v1_world) [EUpstream "goodreads rss"].
Proof.
  destruct cosmetic_change_on_demand as [H1 H2]; split.
  - apply (H1 Samples.gr_world 3601000 3601000 (Goodreads.mkEntry Samples.gr_dune_a 1000)
             Samples.gr_dune_b Samples.dune_b Samples.dune_a); vm_compute; reflexivity.
  - apply (H2 Samples.v1_world 3601000 3601000 (GoodreadsV1.mkEntry Samples.v1_dune_a 1000)
             Samples.v1_dune_b Samples.dune_b Samples.dune_a); vm_compute; reflexivity.
Defined.

(** ** C4: on-demand fetch failure *)

(** C4 (counterexample). The Spotify worker holds [T1] written at
    t = 1000; at t = 40000 the entry is past its 30 s freshness window and
    the token request fails: the handler answers with the 500 error
    instead of serving the stored track. *)
Lemma spotify_failure_not_stale_served :
  fst (Spotify.fetch 40000 40000 (FetchFailed "Failed to get access token: 401")
         (Fetched None) (Fetched None) Samples.sp_world)
  <> Ok (RespJSON (Some Samples.t1_playing)).
Proof. vm_compute; discriminate. Qed.

(** C4 (amended). goodreads-worker.js: when the upstream fetch fails on
    the on-demand path, an entry present in KV is served as a success with
    no write, and with no entry the handler answers the 500 error.  The
    Spotify worker and the older Goodreads worker (part_001) do not
    stale-serve: any upstream failure gives the 500 error, with no write,
    whether or not an entry is present. *)
Theorem on_demand_fetch_failure :
  (forall (w : world Goodreads.entry) t_read t_write m e,
     kv_up w = true -> lookup t_read (store w) = Some e ->
     Goodreads.cacheValid (Some e) t_read = false ->
     Goodreads.fetch t_read t_write (FetchFailed m) w =
       (Ok (RespJSON (Goodreads.data e)),
        mkWorld true (store w) (EUpstream "goodreads rss" :: trace w))) /\
  (forall (w : world Goodreads.entry) t_read t_write m,
     kv_up w = true -> lookup t_read (store w) = None ->
     Goodreads.fetch t_read t_write (FetchFailed m) w =
       (Ok (RespError500 m),
        mkWorld true (store w) (EUpstream "goodreads rss" :: trace w))) /\
  (forall (w : world Spotify.entry) t_read t_write tok np rp m,
     kv_up w = true ->
     Spotify.cacheFresh (lookup t_read (store w)) t_read = false ->
     (tok = FetchFailed m \/
      (tok = Fetched tt /\ np = FetchFailed m) \/
      (tok = Fetched tt /\ np = Fetched None /\ rp = FetchFailed m)) ->
     fst (Spotify.fetch t_read t_write tok np rp w) = Ok (RespError500 m) /\
     store (snd (Spotify.fetch t_read t_write tok np rp w)) = store w /\
     count_puts (trace (snd (Spotify.fetch t_read t_write tok np rp w)))
       = count_puts (trace w)) /\
  (forall (w : world GoodreadsV1.entry) t_read t_write m,
     kv_up w = true ->
     GoodreadsV1.cacheValid (lookup t_read (store w)) t_read = false ->
     GoodreadsV1.fetch t_read t_write (FetchFailed m) w =
       (Ok (RespError500 m),
        mkWorld true (store w) (EUpstream "goodreads rss" :: trace w))).
Proof.
  split; [|split; [|split]].
  - intros w t_read t_write m e Hup Hl Hst.
    unfold Goodreads.fetch, Goodreads.fetch_body, catch, bind, kv_get.
    rewrite Hup, Hl, Hst; cbn; rewrite Hup; reflexivity.
  - intros w t_read t_write m Hup Hl.
    unfold Goodreads.fetch, Goodreads.fetch_body, catch, bind, kv_get.
    rewrite Hup, Hl; cbn; rewrite Hup; reflexivity.
  - intros w t_read t_write tok np rp m Hup Hst Hf.
    unfold Spotify.fetch, Spotify.fetch_body, catch, bind, kv_get.
    rewrite Hup; cbn; rewrite Hst.
    destruct Hf as [-> | [[-> ->] | [-> [-> ->]]]]; cbn; auto.
  - intros w t_read t_write m Hup Hst.
    unfold GoodreadsV1.fetch, GoodreadsV1.fetch_body, catch, bind, kv_get.
    rewrite Hup; cbn; rewrite Hst; cbn; rewrite Hup; reflexivity.
Qed.

Lemma on_demand_fetch_failure_witness :
  Goodreads.fetch 3601000 3601000 (FetchFailed "Goodreads RSS returned 503") Samples.gr_world
    = (Ok (RespJSON Samples.gr_dune_a),
       mkWorld true (store Samples.gr_world) [EUpstream "goodreads rss"]) /\
  Goodreads.fetch 1000 1000 (FetchFailed "Goodreads RSS returned 503") Samples.gr_empty_world
    = (Ok (RespError500 "Goodreads RSS returned 503"),
       mkWorld true None [EUpstream "goodreads rss"]) /\
  fst (Spotify.fetch 40000 40000 (Fetched tt) (FetchFailed "Spotify API error: 502")
         (Fetched None) Samples.sp_world) = Ok (RespError500 "Spotify API error: 502") /\
  GoodreadsV1.fetch 3601000 3601000 (FetchFailed "network") Samples.v1_world
    = (Ok (RespError500 "network"),
       mkWorld true (store Samples.v1_world) [EUpstream "goodreads rss"]).
Proof.
  destruct on_demand_fetch_failure as [H1 [H2 [H3 H4]]].
  split; [|split; [|split]].
  - apply (H1 Samples.gr_world 3601000 3601000 _ (Goodreads.mkEntry Samples.gr_dune_a 1000));
      vm_compute; reflexivity.
  - apply (H2 Samples.gr_empty_world 1000 1000 _); vm_compute; reflexivity.
  - apply (H3 Samples.sp_world 40000 40000 (Fetched tt) (FetchFailed "Spotify API error: 502")
             (Fetched None) "Spotify API error: 502"); [vm_compute; reflexivity
                                                       | vm_compute; reflexivity
                                                       | right; left; split; reflexivity].
  - apply (H4 Samples.v1_world 3601000 3601000 _); vm_compute; reflexivity.
Defined.

(** ** C1: a fetched null does not erase a stored record *)

(** C1. Spotify on-demand path: with [T1] stored at t = 1000, a request at
    t = 40000 where nothing is playing ([204]) and recently-played gives
    nothing replaces the stored track by [null].  The older Goodreads
    worker (part_001) likewise overwrites [Dune] with an empty feed. *)
Theorem null_fetch_erases_stored_record :
  Spotify.dataOf (lookup 40000 (store Samples.sp_world)) = Some Samples.t1_playing /\
  Spotify.dataOf
    (lookup 40000 (store (snd (Spotify.fetch 40000 40000 (Fetched tt)
                                 (Fetched None) (Fetched None) Samples.sp_world))))
    = None /\
  option_map GoodreadsV1.data
    (lookup 3601000 (store (snd (GoodreadsV1.fetch 3601000 3601000
                                  (Fetched (GoodreadsV1.mkBooks None)) Samples.v1_world))))
    = Some (GoodreadsV1.mkBooks None).
Proof. vm_compute; repeat split. Qed.

(** ** C5: the equality predicates *)

(** C5 (counterexample). Two Spotify tracks without a track id that
    differ only in album art are judged different by [tracksEqual]. *)
Lemma tracksEqual_fallback_sees_album_art :
  Spotify.tracksEqual (Some Samples.local_a) (Some Samples.local_b) = false.
Proof. vm_compute; reflexivity. Qed.

(** C5 (amended). [hasBookChanged] on two non-null current books reports
    no change iff title and author are equal strings.  [tracksEqual] on
    two tracks that both carry a non-empty [trackId] holds iff [trackId]
    and [isPlaying] are equal; when either [trackId] is missing or empty
    it falls back to comparing every field, display fields included. *)
Theorem equality_predicates :
  (forall nbs ebs nb eb,
     Goodreads.current nbs = Some nb -> Goodreads.current ebs = Some eb ->
     Goodreads.hasBookChanged nbs (Some ebs) = false <->
     title nb = title eb /\ author nb = author eb) /\
  (forall t1 t2,
     Spotify.truthy_id (Spotify.trackId t1) = true ->
     Spotify.truthy_id (Spotify.trackId t2) = true ->
     Spotify.tracksEqual (Some t1) (Some t2) = true <->
     Spotify.trackId t1 = Spotify.trackId t2 /\ Spotify.isPlaying t1 = Spotify.isPlaying t2) /\
  (forall t1 t2,
     Spotify.truthy_id (Spotify.trackId t1) && Spotify.truthy_id (Spotify.trackId t2) = false ->
     Spotify.tracksEqual (Some t1) (Some t2) = true <-> t1 = t2).
Proof.
  split; [|split].
  - intros nbs ebs nb eb Hn He; unfold Goodreads.hasBookChanged; rewrite He, Hn.
    rewrite orb_false_iff, !negb_false_iff, !String.eqb_eq; reflexivity.
  - intros t1 t2 H1 H2; cbn; rewrite H1, H2; cbn.
    rewrite andb_true_iff, sp_opt_str_eqb_iff, Bool.eqb_true_iff; reflexivity.
  - intros t1 t2 H; cbn; rewrite H; apply json_eqb_iff.
Qed.

Lemma equality_predicates_witness :
  Goodreads.hasBookChanged Samples.gr_dune_b (Some Samples.gr_dune_a) = false /\
  Spotify.tracksEqual (Some Samples.t1_playing)
    (Some (Spotify.mkTrack true "Song" "Artist" "Album" "https://img/other.jpg"
             "https://open/t1" (Some "T1") "track")) = true /\
  (Spotify.tracksEqual (Some Samples.local_a) (Some Samples.local_b) = true
   <-> Samples.local_a = Samples.local_b).
Proof.
  destruct equality_predicates as [H1 [H2 H3]]; split; [|split].
  - apply (H1 _ _ Samples.dune_b Samples.dune_a); try reflexivity; split; reflexivity.
  - apply (H2 _ _); try reflexivity; split; reflexivity.
  - apply H3; reflexivity.
Defined.

(** ** C8: scheduled ticks never throw and never write on failure *)

(** C8. The three [scheduled] handlers complete normally on every input,
    whatever the upstream calls and the KV backend do; and a tick whose
    upstream fetch fails leaves the KV entry untouched and makes no put. *)
Theorem scheduled_errors_are_terminal :
  (forall (w : world Goodreads.entry) now rss,
     fst (Goodreads.scheduled now rss w) = Ok tt) /\
  (forall (w : world Goodreads.entry) now m,
     store (snd (Goodreads.scheduled now (FetchFailed m) w)) = store w /\
     count_puts (trace (snd (Goodreads.scheduled now (FetchFailed m) w)))
       = count_puts (trace w)) /\
  (forall (w : world GoodreadsV1.entry) now rss,
     fst (GoodreadsV1.scheduled now rss w) = Ok tt) /\
  (forall (w : world GoodreadsV1.entry) now m,
     store (snd (GoodreadsV1.scheduled now (FetchFailed m) w)) = store w /\
     count_puts (trace (snd (GoodreadsV1.scheduled now (FetchFailed m) w)))
       = count_puts (trace w)) /\
  (forall (w : world Spotify.entry) now tok np rp,
     fst (Spotify.scheduled now tok np rp w) = Ok tt) /\
  (forall (w : world Spotify.entry) now tok np rp m,
     (tok = FetchFailed m \/
      (tok = Fetched tt /\ np = FetchFailed m) \/
      (tok = Fetched tt /\ np = Fetched None /\ rp = FetchFailed m)) ->
     store (snd (Spotify.scheduled now tok np rp w)) = store w /\
     count_puts (trace (snd (Spotify.scheduled now tok np rp w)))
       = count_puts (trace w)).
Proof.
  split; [|split; [|split; [|split; [|split]]]].
  - intros w now rss; unfold Goodreads.scheduled; mrun; reflexivity.
  - intros w now m; unfold Goodreads.scheduled; mrun; auto.
  - intros w now rss; unfold GoodreadsV1.scheduled; mrun; reflexivity.
  - intros w now m; unfold GoodreadsV1.scheduled; mrun; auto.
  - intros w now tok np rp; unfold Spotify.scheduled, Spotify.latest; mrun; reflexivity.
  - intros w now tok np rp m Hf; unfold Spotify.scheduled, Spotify.latest.
    destruct Hf as [-> | [[-> ->] | [-> [-> ->]]]]; mrun; auto.
Qed.

Lemma scheduled_errors_are_terminal_witness :
  fst (Goodreads.scheduled 5000 (FetchFailed "network") Samples.gr_world) = Ok tt /\
  store (snd (Goodreads.scheduled 5000 (FetchFailed "network") Samples.gr_world))
    = store Samples.gr_world /\
  fst (GoodreadsV1.scheduled 5000 (FetchFailed "network") Samples.v1_world) = Ok tt /\
  store (snd (GoodreadsV1.scheduled 5000 (FetchFailed "network") Samples.v1_world))
    = store Samples.v1_world /\
  fst (Spotify.scheduled 200000 (Fetched tt) (FetchFailed "Spotify API error: 500")
         (Fetched None) Samples.sp_world) = Ok tt /\
  store (snd (Spotify.scheduled 200000 (Fetched tt) (FetchFailed "Spotify API error: 500")
                (Fetched None) Samples.sp_world)) = store Samples.sp_world.
Proof.
  destruct scheduled_errors_are_terminal as [H1 [H2 [H3 [H4 [H5 H6]]]]].
  split; [apply H1|]. split; [apply (H2 Samples.gr_world 5000 "network")|].
  split; [apply H3|]. split; [apply (H4 Samples.v1_world 5000 "network")|].
  split; [apply H5|].
  apply (H6 Samples.sp_world 200000 (Fetched tt) (FetchFailed "Spotify API error: 500")
           (Fetched None) "Spotify API error: 500").
  right; left; split; reflexivity.
Defined.

(** ** C10: an on-demand Spotify write postpones the scheduled fetch *)

(** What one on-demand Spotify request does to KV: nothing, or one put of
    an entry stamped [timestamp = lastRun = t_write] with the 300 s TTL. *)
Lemma spotify_fetch_effect :
  forall (w : world Spotify.entry) t_read t_write tok np rp,
    let w' := snd (Spotify.fetch t_read t_write tok np rp w) in
    kv_up w' = kv_up w /\
    ((store w' = store w /\ count_puts (trace w') = count_puts (trace w)) \/
     (exists tr, store w' = Some (mkStored (Spotify.mkEntry tr t_write t_write)
                                   (Some (t_write + Spotify.KV_TTL * 1000))) /\
                 count_puts (trace w') = S (count_puts (trace w)))).
Proof.
  intros w t_read t_write tok np rp w'; subst w'.
  unfold Spotify.fetch, Spotify.fetch_body; mrun; cbn [count_puts];
    split; auto; right; eauto.
Qed.

(** C10. Every entry the Spotify on-demand path writes has
    [lastRun = timestamp = t_write] (both [Date.now()] calls of the put
    read the same clock); and any cron tick at a time [now] with
    [now - t_write < 120000] that runs right after that request returns
    without upstream call and without write. *)
Theorem spotify_on_demand_write_postpones_tick :
  forall (w : world Spotify.entry) t_read t_write tok np rp now tok' np' rp',
    let w' := snd (Spotify.fetch t_read t_write tok np rp w) in
    count_puts (trace w') <> count_puts (trace w) ->
    0 < t_write -> now - t_write < Spotify.SCHEDULE_INTERVAL ->
    (exists e, store w' = Some (mkStored e (Some (t_write + Spotify.KV_TTL * 1000))) /\
               Spotify.lastRun e = Spotify.timestamp e /\ Spotify.timestamp e = t_write) /\
    Spotify.scheduled now tok' np' rp' w' = (Ok tt, w').
Proof.
  intros w t_read t_write tok np rp now tok' np' rp' w' Hput Hpos Hnow.
  destruct (spotify_fetch_effect w t_read t_write tok np rp) as [Hup [[_ Hc] | [tr [Hs _]]]];
    fold w' in Hup; [fold w' in Hc; contradiction|].
  fold w' in Hs.
  assert (Hup' : kv_up w' = true).
  { destruct (kv_up w') eqn:E; [reflexivity|].
    exfalso; apply Hput; subst w'.
    unfold Spotify.fetch, Spotify.fetch_body, catch, bind, kv_get in *.
    rewrite <- Hup in E; cbn in E |- *; rewrite E; reflexivity. }
  split.
  - exists (Spotify.mkEntry tr t_write t_write); auto.
  - unfold Spotify.scheduled, catch, bind, kv_get; rewrite Hup', Hs; cbn.
    replace (t_write + 300000 <=? now) with false
      by (unfold Spotify.SCHEDULE_INTERVAL in *; lia).
    unfold Spotify.tooSoon, truthy_num; cbn.
    replace (t_write =? 0) with false by lia.
    replace (now - t_write <? Spotify.SCHEDULE_INTERVAL) with true by lia.
    reflexivity.
Qed.

Lemma spotify_on_demand_write_postpones_tick_witness :
  Spotify.scheduled 100000 (Fetched tt) (Fetched None) (Fetched None)
    (snd (Spotify.fetch 40000 40000 (Fetched tt)
            (Fetched (Some Samples.t1_playing)) (Fetched None) Samples.sp_empty_world))
  = (Ok tt, snd (Spotify.fetch 40000 40000 (Fetched tt)
                   (Fetched (Some Samples.t1_playing)) (Fetched None)
                   Samples.sp_empty_world)).
Proof.
  apply (spotify_on_demand_write_postpones_tick Samples.sp_empty_world 40000 40000
           (Fetched tt) (Fetched (Some Samples.t1_playing)) (Fetched None) 100000);
    [vm_compute; discriminate | lia | vm_compute; reflexivity].
Defined.

(** ** C3: self-throttling of the scheduled path *)

(** C3 (counterexample). goodreads-worker.js: a cron tick one millisecond
    after the stored entry was written still calls Goodreads. *)
Lemma goodreads_tick_not_throttled :
  count_upstream (trace (snd (Goodreads.scheduled 1001 (Fetched Samples.gr_dune_a)
                                Samples.gr_world))) <> 0%nat.
Proof. vm_compute; discriminate. Qed.

(** C3 (amended). Only the Spotify worker throttles its cron ticks: a
    tick that reads an entry whose [lastRun] is set with
    [now - lastRun < 120000] returns with no upstream call and no write,
    and a tick that makes no put leaves the stored entry, hence its
    [lastRun], unchanged.  The scheduled path of goodreads-worker.js has
    no throttle: with KV reachable every tick makes one upstream call. *)
Theorem scheduled_self_throttle :
  (forall (w : world Spotify.entry) now tok np rp e,
     kv_up w = true -> lookup now (store w) = Some e ->
     Spotify.lastRun e <> 0 -> now - Spotify.lastRun e < Spotify.SCHEDULE_INTERVAL ->
     Spotify.scheduled now tok np rp w = (Ok tt, w)) /\
  (forall (w : world Spotify.entry) now tok np rp,
     count_puts (trace (snd (Spotify.scheduled now tok np rp w))) = count_puts (trace w) ->
     store (snd (Spotify.scheduled now tok np rp w)) = store w) /\
  (forall (w : world Goodreads.entry) now rss,
     kv_up w = true ->
     count_upstream (trace (snd (Goodreads.scheduled now rss w)))
       = S (count_upstream (trace w))).
Proof.
  split; [|split].
  - intros w now tok np rp e Hup Hl Hlr Hlt.
    unfold Spotify.scheduled, catch, bind, kv_get; rewrite Hup, Hl; cbn.
    unfold Spotify.tooSoon, truthy_num.
    replace (Spotify.lastRun e =? 0) with false by lia.
    replace (now - Spotify.lastRun e <? Spotify.SCHEDULE_INTERVAL) with true by lia.
    reflexivity.
  - intros w now tok np rp; unfold Spotify.scheduled, Spotify.latest; mrun; auto; lia.
  - intros w now rss Hup; unfold Goodreads.scheduled; mrun; cbn [count_upstream];
      congruence.
Qed.

Lemma scheduled_self_throttle_witness :
  Spotify.scheduled 100000 (Fetched tt) (Fetched None) (Fetched None) Samples.sp_world
    = (Ok tt, Samples.sp_world) /\
  store (snd (Spotify.scheduled 200000 (Fetched tt) (Fetched (Some Samples.t1_playing))
                (Fetched None) Samples.sp_world)) = store Samples.sp_world /\
  count_upstream (trace (snd (Goodreads.scheduled 1001 (Fetched Samples.gr_dune_a)
                                Samples.gr_world))) = 1%nat.
Proof.
  destruct scheduled_self_throttle as [H1 [H2 H3]]; split; [|split].
  - apply (H1 Samples.sp_world 100000 _ _ _
             (Spotify.mkEntry (Some Samples.t1_playing) 1000 1000));
      vm_compute; [reflexivity | reflexivity | discriminate | reflexivity].
  - apply H2; vm_compute; reflexivity.
  - apply (H3 Samples.gr_world 1001 _); reflexivity.
Defined.

(** ** C2: writes over sequences of identical polls *)

(** Closes the branches where a put would store the record already there. *)
Ltac same_record_no_put Ha :=
  try (split; reflexivity);
  subst; cbn [Spotify.dataOf Polls.adapter_result] in *;
  injection Ha as Ha; rewrite <- Ha in *;
  rewrite tracksEqual_refl in *; discriminate.

Lemma spotify_fetch_no_put_when_same :
  forall (w : world Spotify.entry) t_read t_write tok np rp e,
    lookup t_read (store w) = Some e ->
    Polls.adapter_result tok np rp = Some (Spotify.data e) ->
    store (snd (Spotify.fetch t_read t_write tok np rp w)) = store w /\
    count_puts (trace (snd (Spotify.fetch t_read t_write tok np rp w)))
      = count_puts (trace w).
Proof.
  intros w t_read t_write tok np rp e Hl Ha.
  unfold Spotify.fetch, Spotify.fetch_body; mrun.
  all: same_record_no_put Ha.
Qed.

Lemma spotify_scheduled_no_put_when_same :
  forall (w : world Spotify.entry) now tok np rp e,
    lookup now (store w) = Some e ->
    Polls.adapter_result tok np rp = Some (Spotify.data e) ->
    store (snd (Spotify.scheduled now tok np rp w)) = store w /\
    count_puts (trace (snd (Spotify.scheduled now tok np rp w))) = count_puts (trace w).
Proof.
  intros w now tok np rp e Hl Ha.
  unfold Spotify.scheduled, Spotify.latest; mrun.
  all: same_record_no_put Ha.
Qed.

Lemma spotify_fetch_put_shape :
  forall (w : world Spotify.entry) t_read t_write tok np rp,
    let w' := snd (Spotify.fetch t_read t_write tok np rp w) in
    (store w' = store w /\ count_puts (trace w') = count_puts (trace w)) \/
    (exists tr, Polls.adapter_result tok np rp = Some tr /\
       store w' = Some (mkStored (Spotify.mkEntry tr t_write t_write)
                          (Some (t_write + Spotify.KV_TTL * 1000))) /\
       count_puts (trace w') = S (count_puts (trace w))).
Proof.
  intros w t_read t_write tok np rp w'; subst w'.
  unfold Spotify.fetch, Spotify.fetch_body; mrun.
  all: first [left; split; reflexivity
             | right; eexists; split; [subst; reflexivity | split; reflexivity]].
Qed.

Lemma spotify_scheduled_put_shape :
  forall (w : world Spotify.entry) now tok np rp,
    let w' := snd (Spotify.scheduled now tok np rp w) in
    (store w' = store w /\ count_puts (trace w') = count_puts (trace w)) \/
    (exists tr, Polls.adapter_result tok np rp = Some tr /\
       store w' = Some (mkStored (Spotify.mkEntry tr now now)
                          (Some (now + Spotify.KV_TTL * 1000))) /\
       count_puts (trace w') = S (count_puts (trace w))).
Proof.
  intros w now tok np rp w'; subst w'.
  unfold Spotify.scheduled, Spotify.latest; mrun.
  all: first [left; split; reflexivity
             | right; eexists; split; [subst; reflexivity | split; reflexivity]].
Qed.

Lemma snd_then_ret {E A} (m : M E A) (w : world E) :
  snd ((m ;;; ret tt) w) = snd (m w).
Proof. unfold bind, ret; destruct (m w) as [[a|e] w']; reflexivity. Qed.

Lemma lookup_live {E} (v : E) x t :
  t < x -> lookup t (Some (mkStored v (Some x))) = Some v.
Proof. intro H; cbn; replace (x <=? t) with false by lia; reflexivity. Qed.

Lemma written_once_step :
  forall T tok np rp n p w,
    Polls.in_window T p -> Polls.written_once T tok np rp n w ->
    Polls.written_once T tok np rp n (snd (Polls.spotify_poll tok np rp p w)).
Proof.
  intros T tok np rp n [tr tw | t] w Hwin Hinv; cbn [Polls.spotify_poll].
  - rewrite snd_then_ret; cbn in Hwin.
    destruct Hinv as [[Hc Hs] | [Hc [tr0 [x [Hx [Hs Ha]]]]]].
    + destruct (spotify_fetch_put_shape w tr tw tok np rp) as [[Hs' Hc'] | [r [Ha [Hs' Hc']]]].
      * left; split; congruence.
      * right; split; [congruence|]. exists r, tw; repeat split; auto; lia.
    + assert (Hl : lookup tr (store w) = Some (Spotify.mkEntry tr0 x x))
        by (rewrite Hs; apply lookup_live; unfold Spotify.KV_TTL in *; lia).
      destruct (spotify_fetch_no_put_when_same w tr tw tok np rp _ Hl Ha) as [Hs' Hc'].
      right; split; [congruence|]. exists tr0, x; rewrite Hs'; auto.
  - cbn in Hwin.
    destruct Hinv as [[Hc Hs] | [Hc [tr0 [x [Hx [Hs Ha]]]]]].
    + destruct (spotify_scheduled_put_shape w t tok np rp) as [[Hs' Hc'] | [r [Ha [Hs' Hc']]]].
      * left; split; congruence.
      * right; split; [congruence|]. exists r, t; repeat split; auto; lia.
    + assert (Hl : lookup t (store w) = Some (Spotify.mkEntry tr0 x x))
        by (rewrite Hs; apply lookup_live; unfold Spotify.KV_TTL in *; lia).
      destruct (spotify_scheduled_no_put_when_same w t tok np rp _ Hl Ha) as [Hs' Hc'].
      right; split; [congruence|]. exists tr0, x; rewrite Hs'; auto.
Qed.

Lemma written_once_run :
  forall T tok np rp n polls w,
    Forall (Polls.in_window T) polls -> Polls.written_once T tok np rp n w ->
    Polls.written_once T tok np rp n
      (run_seq (map (Polls.spotify_poll tok np rp) polls) w).
Proof.
  intros T tok np rp n polls; induction polls as [|p ps IH]; intros w Hall Hinv;
    cbn [map run_seq]; [exact Hinv|].
  inversion Hall; subst; apply IH; auto; apply written_once_step; auto.
Qed.

Lemma goodreads_scheduled_put_shape :
  forall (w : world Goodreads.entry) now b,
    let w' := snd (Goodreads.scheduled now (Fetched b) w) in
    (store w' = store w /\ count_puts (trace w') = count_puts (trace w)) \/
    (store w' = Some (mkStored (Goodreads.mkEntry b now) None) /\
     count_puts (trace w') = S (count_puts (trace w))).
Proof.
  intros w now b w'; subst w'; unfold Goodreads.scheduled; mrun.
  all: first [left; split; reflexivity | right; split; reflexivity].
Qed.

Lemma goodreads_scheduled_no_put_when_same :
  forall (w : world Goodreads.entry) now b nb x,
    Goodreads.current b = Some nb ->
    store w = Some (mkStored (Goodreads.mkEntry b x) None) ->
    snd (Goodreads.scheduled now (Fetched b) w) = mkWorld (kv_up w) (store w)
      (if kv_up w then EUpstream "goodreads rss" :: trace w else trace w).
Proof.
  intros w now b nb x Hc Hs; unfold Goodreads.scheduled; mrun.
  all: try (destruct w; cbn in *; congruence).
  all: cbn [Goodreads.data truthy_obj] in *;
       rewrite (hasBookChanged_same b nb Hc) in *; discriminate.
Qed.

Lemma goodreads_scheduled_run :
  forall b nb n times (w : world Goodreads.entry),
    Goodreads.current b = Some nb ->
    (count_puts (trace w) = n \/
     (count_puts (trace w) = S n /\
      exists x, store w = Some (mkStored (Goodreads.mkEntry b x) None))) ->
    let w' := run_seq (map (fun t => Goodreads.scheduled t (Fetched b)) times) w in
    count_puts (trace w') = n \/
    (count_puts (trace w') = S n /\
     exists x, store w' = Some (mkStored (Goodreads.mkEntry b x) None)).
Proof.
  intros b nb n times; induction times as [|t ts IH]; intros w Hc Hinv; cbn [map run_seq];
    [exact Hinv|].
  apply IH; [exact Hc|].
  destruct Hinv as [Hn | [Hn [x Hs]]].
  - destruct (goodreads_scheduled_put_shape w t b) as [[_ Hc'] | [Hs' Hc']].
    + left; congruence.
    + right; split; [congruence | exists t; exact Hs'].
  - rewrite (goodreads_scheduled_no_put_when_same w t b nb x Hc Hs).
    right; cbn [trace store]; split.
    + destruct (kv_up w); cbn [count_puts]; exact Hn.
    + exists x; exact Hs.
Qed.

(** C2 (counterexample). goodreads-worker.js, on-demand path: starting
    from an empty KV, two requests an hour apart that both fetch [Dune]
    write KV twice (the second write refreshes the timestamp). *)
Lemma identical_on_demand_polls_write_twice :
  (1 < count_puts (trace (run_seq
         [Goodreads.fetch 1000 1000 (Fetched Samples.gr_dune_a);
          Goodreads.fetch 3601000 3601000 (Fetched Samples.gr_dune_a)]
         Samples.gr_empty_world)))%nat.
Proof. vm_compute; repeat constructor. Qed.

(** C2 (amended). goodreads-worker.js, scheduled path: ticks that all
    fetch the same books, with a non-null current book, add at most one
    KV write to any starting state.  Spotify worker: any mix of on-demand
    requests and cron ticks that all see the same upstream results,
    starting from an empty KV and with every clock reading within the
    300 s KV expiry of the first one, adds at most one KV write. *)
Theorem identical_polls_write_at_most_once :
  (forall (w : world Goodreads.entry) b nb times,
     Goodreads.current b = Some nb ->
     (count_puts (trace (run_seq (map (fun t => Goodreads.scheduled t (Fetched b)) times) w))
        <= S (count_puts (trace w)))%nat) /\
  (forall (w : world Spotify.entry) T tok np rp polls,
     store w = None -> Forall (Polls.in_window T) polls ->
     (count_puts (trace (run_seq (map (Polls.spotify_poll tok np rp) polls) w))
        <= S (count_puts (trace w)))%nat).
Proof.
  split.
  - intros w b nb times Hc.
    destruct (goodreads_scheduled_run b nb (count_puts (trace w)) times w Hc (or_introl eq_refl))
      as [H | [H _]]; rewrite H; auto.
  - intros w T tok np rp polls Hs Hall.
    destruct (written_once_run T tok np rp (count_puts (trace w)) polls w Hall
                (or_introl (conj eq_refl Hs))) as [[H _] | [H _]]; rewrite H; auto.
Qed.

Lemma identical_polls_write_at_most_once_witness :
  (count_puts (trace (run_seq
     (map (fun t => Goodreads.scheduled t (Fetched Samples.gr_dune_a)) [1000%Z; 2000%Z; 3000%Z])
     Samples.gr_empty_world)) <= 1)%nat /\
  (count_puts (trace (run_seq
     (map (Polls.spotify_poll (Fetched tt) (Fetched (Some Samples.t1_playing)) (Fetched None))
        [Polls.Tick 1000; Polls.OnDemand 40000 40000; Polls.Tick 130000;
         Polls.OnDemand 200000 200000])
     Samples.sp_empty_world)) <= 1)%nat.
Proof.
  destruct identical_polls_write_at_most_once as [H1 H2]; split.
  - apply (H1 Samples.gr_empty_world Samples.gr_dune_a Samples.dune_a); reflexivity.
  - apply (H2 Samples.sp_empty_world 1000); [reflexivity|].
    repeat constructor; cbn; unfold Spotify.KV_TTL; lia.
Defined.

(** * Further properties of the code *)

(** ** Helper facts on the RSS matchers *)

Module RssFacts.

Import Rss.
Local Open Scope list_scope.


Lemma prefixb_app_self p r : prefixb p (p ++ r) = true.
Proof. induction p as [|a p IH]; cbn; [reflexivity|]. rewrite Ascii.eqb_refl. exact IH. Qed.

Lemma skipn_length_app (p r : list ascii) : skipn (length p) (p ++ r) = r.
Proof. induction p; cbn; auto. Qed.

Lemma clash_prefixb p x r : clash p x = true -> prefixb p (x ++ r) = false.
Proof.
  revert x; induction p as [|a p IH]; intros [|b x] H; cbn in *; try discriminate.
  destruct (Ascii.eqb a b); cbn; auto.
Qed.

Lemma clash_prefixb_cons p c x r : clash p (c :: x) = true -> prefixb p (c :: x ++ r) = false.
Proof. exact (clash_prefixb p (c :: x) r). Qed.

Lemma clash_app p x y : clash p x = true -> clash p (x ++ y) = true.
Proof.
  revert x; induction p as [|a p IH]; intros [|b x] H; cbn in *; try discriminate.
  destruct (Ascii.eqb a b); auto.
Qed.

Lemma clash_common a q y : clash (a ++ q) (a ++ y) = clash q y.
Proof. induction a as [|c a IH]; cbn; [reflexivity|]. rewrite Ascii.eqb_refl. exact IH. Qed.

Lemma avoids_app p x y : avoids p x = true -> avoids p y = true -> avoids p (x ++ y) = true.
Proof.
  induction x as [|c x IH]; cbn; intros Hx Hy; [exact Hy|].
  apply andb_true_iff in Hx as [H1 H2].
  apply andb_true_iff; split; [exact (clash_app p (c :: x) y H1) | auto].
Qed.

Lemma bad_head_no_tag a p b : bad_head (a :: p) = true ->
  negb (Ascii.eqb b "<"%char) && negb (Ascii.eqb b "]"%char) = true -> Ascii.eqb a b = false.
Proof.
  cbn. intros Hp Hb. destruct (Ascii.eqb_spec a b) as [->|]; [|reflexivity].
  destruct (Ascii.eqb b "<"%char), (Ascii.eqb b "]"%char); discriminate.
Qed.

Lemma clash_value p v y : bad_head p = true -> no_tag_chars v = true ->
  clash p y = true -> clash p (v ++ y) = true.
Proof.
  destruct p as [|a p]; [discriminate|]. destruct v as [|b v]; cbn; intros Hp Hv Hy; [exact Hy|].
  apply andb_true_iff in Hv as [Hb _]. rewrite (bad_head_no_tag a p b Hp Hb). reflexivity.
Qed.

Lemma avoids_value p v : bad_head p = true -> no_tag_chars v = true -> avoids p v = true.
Proof.
  intros Hp; induction v as [|b v IH]; cbn; intros Hv; [reflexivity|].
  apply andb_true_iff in Hv as [Hb Hv]. rewrite (IH Hv), andb_true_r.
  destruct p as [|a p]; [discriminate|]. cbn. rewrite (bad_head_no_tag a p b Hp Hb). reflexivity.
Qed.

Lemma avoids_shadow a q v c : a <> [] -> bad_head q = true -> no_tag_chars v = true ->
  clash q c = true -> avoids (a ++ q) (tl a) = true -> avoids (a ++ q) v = true ->
  avoids (a ++ q) c = true -> avoids (a ++ q) (a ++ v ++ c) = true.
Proof.
  destruct a as [|x a]; [congruence|]. intros _ Hq Hv Hc Ht Hv' Hc'.
  change (avoids ((x :: a) ++ q) (x :: (a ++ v ++ c)) = true). cbn [avoids].
  apply andb_true_iff; split.
  - change (x :: a ++ v ++ c) with ((x :: a) ++ v ++ c). rewrite clash_common.
    apply clash_value; assumption.
  - apply avoids_app; [exact Ht|]. apply avoids_app; assumption.
Qed.

Lemma break_on_eq pat s : break_on pat s =
  if prefixb pat s then Some ([], skipn (length pat) s)
  else match s with
       | [] => None
       | c :: s' => match break_on pat s' with
                    | Some (b, a) => Some (c :: b, a)
                    | None => None
                    end
       end.
Proof. destruct s; reflexivity. Qed.

Lemma break_on_skip p x r : avoids p x = true ->
  break_on p (x ++ r) = match break_on p r with Some (b, a) => Some (x ++ b, a) | None => None end.
Proof.
  induction x as [|c x IH]; intros H.
  - cbn. destruct (break_on p r) as [[b a]|]; reflexivity.
  - cbn [avoids] in H. apply andb_true_iff in H as [H1 H2].
    cbn [app]. rewrite break_on_eq. rewrite (clash_prefixb_cons p c x r H1).
    rewrite (IH H2). destruct (break_on p r) as [[b a]|]; reflexivity.
Qed.

Lemma break_on_here p r : break_on p (p ++ r) = Some ([], r).
Proof. rewrite break_on_eq, prefixb_app_self, skipn_length_app. reflexivity. Qed.

Lemma break_on_find p v r : avoids p v = true -> break_on p (v ++ p ++ r) = Some (v, r).
Proof. intros H. rewrite (break_on_skip p v _ H), break_on_here, app_nil_r. reflexivity. Qed.

Lemma cdata_match_skip opn cls x r : avoids opn x = true ->
  cdata_match opn cls (x ++ r) = cdata_match opn cls r.
Proof.
  induction x as [|c x IH]; intros H; [reflexivity|].
  cbn [avoids] in H. apply andb_true_iff in H as [H1 H2].
  change ((c :: x) ++ r) with (c :: (x ++ r)). cbn [cdata_match].
  rewrite (clash_prefixb_cons opn c x r H1). exact (IH H2).
Qed.

Lemma cdata_match_here opn cls v r : opn <> [] -> avoids cls v = true ->
  cdata_match opn cls (opn ++ v ++ cls ++ r) = Some v.
Proof.
  destruct opn as [|o os]; [congruence|]. intros _ Hv.
  change ((o :: os) ++ v ++ cls ++ r) with (o :: (os ++ v ++ cls ++ r)). cbn [cdata_match].
  change (o :: os ++ v ++ cls ++ r) with ((o :: os) ++ v ++ cls ++ r).
  rewrite prefixb_app_self, skipn_length_app, (break_on_find cls v r Hv). reflexivity.
Qed.

Lemma plain_match_skip opn cls x r : avoids opn x = true ->
  plain_match opn cls (x ++ r) = plain_match opn cls r.
Proof.
  induction x as [|c x IH]; intros H; [reflexivity|].
  cbn [avoids] in H. apply andb_true_iff in H as [H1 H2].
  change ((c :: x) ++ r) with (c :: (x ++ r)). cbn [plain_match].
  rewrite (clash_prefixb_cons opn c x r H1). exact (IH H2).
Qed.

Lemma span_not_lt_value v y : no_tag_chars v = true ->
  span_not_lt (v ++ "<"%char :: y) = (v, "<"%char :: y).
Proof.
  induction v as [|b v IH]; cbn; intros Hv; [reflexivity|].
  apply andb_true_iff in Hv as [Hb Hv]. apply andb_true_iff in Hb as [Hb _].
  apply negb_true_iff in Hb. rewrite Hb, (IH Hv). reflexivity.
Qed.

Lemma plain_match_here opn cls v r : opn <> [] -> no_tag_chars v = true ->
  plain_match opn ("<"%char :: cls) (opn ++ v ++ ("<"%char :: cls) ++ r) = Some v.
Proof.
  destruct opn as [|o os]; [congruence|]. intros _ Hv.
  change ((o :: os) ++ v ++ ("<"%char :: cls) ++ r) with (o :: (os ++ v ++ ("<"%char :: cls) ++ r)).
  cbn [plain_match].
  change (o :: os ++ v ++ ("<"%char :: cls) ++ r) with ((o :: os) ++ v ++ ("<"%char :: cls) ++ r).
  rewrite prefixb_app_self, skipn_length_app.
  change (("<"%char :: cls) ++ r) with ("<"%char :: (cls ++ r)).
  rewrite (span_not_lt_value v _ Hv).
  change ("<"%char :: cls ++ r) with (("<"%char :: cls) ++ r). rewrite prefixb_app_self. reflexivity.
Qed.


Lemma break_on_length p s b a : break_on p s = Some (b, a) -> (length a <= length s)%nat.
Proof.
  revert b a; induction s as [|c s IH]; intros b a H; rewrite break_on_eq in H.
  - destruct (prefixb p []); [|discriminate]. injection H as <- <-. cbn. destruct (length p); cbn; lia.
  - destruct (prefixb p (c :: s)).
    + injection H as <- <-. rewrite length_skipn. lia.
    + destruct (break_on p s) as [[b' a']|] eqn:E; [|discriminate].
      injection H as <- <-. specialize (IH _ _ eq_refl). cbn. lia.
Qed.

Lemma match_items_fuel f1 f2 s : (length s <= f1)%nat -> (length s <= f2)%nat ->
  match_items f1 s = match_items f2 s.
Proof.
  revert f2 s; induction f1 as [|f1 IH]; intros f2 s H1 H2.
  - destruct s; [destruct f2; reflexivity | cbn in H1; lia].
  - destruct s as [|c s]; [destruct f2; reflexivity|].
    destruct f2 as [|f2]; [cbn in H2; lia|]. cbn in H1, H2. cbn [match_items].
    destruct (prefixb ITEM_OPEN (c :: s)); [|apply IH; lia].
    destruct (break_on ITEM_CLOSE (skipn (length ITEM_OPEN) (c :: s))) as [[body rest]|] eqn:E;
      [|apply IH; lia].
    apply break_on_length in E. rewrite length_skipn in E. cbn in E.
    f_equal. apply IH; lia.
Qed.

Lemma items_of_cons c s : items_of (c :: s) =
  if prefixb ITEM_OPEN (c :: s) then
    match break_on ITEM_CLOSE (skipn (length ITEM_OPEN) (c :: s)) with
    | Some (body, rest) => (ITEM_OPEN ++ body ++ ITEM_CLOSE) :: items_of rest
    | None => items_of s
    end
  else items_of s.
Proof.
  unfold items_of at 1. cbn [length match_items].
  destruct (prefixb ITEM_OPEN (c :: s)); [|apply match_items_fuel; lia].
  destruct (break_on ITEM_CLOSE (skipn (length ITEM_OPEN) (c :: s))) as [[body rest]|] eqn:E;
    [|apply match_items_fuel; lia].
  apply break_on_length in E. rewrite length_skipn in E. cbn in E.
  f_equal. apply match_items_fuel; lia.
Qed.

Lemma items_of_skip x r : avoids ITEM_OPEN x = true -> items_of (x ++ r) = items_of r.
Proof.
  induction x as [|c x IH]; intros H; [reflexivity|].
  cbn [avoids] in H. apply andb_true_iff in H as [H1 H2].
  cbn [app]. rewrite items_of_cons, (clash_prefixb_cons ITEM_OPEN c x r H1). exact (IH H2).
Qed.

Lemma items_of_here body r : avoids ITEM_CLOSE body = true ->
  items_of (ITEM_OPEN ++ body ++ ITEM_CLOSE ++ r) = (ITEM_OPEN ++ body ++ ITEM_CLOSE) :: items_of r.
Proof.
  intros H. change (ITEM_OPEN ++ body ++ ITEM_CLOSE ++ r)
    with ("<"%char :: (lstr "item>" ++ body ++ ITEM_CLOSE ++ r)).
  rewrite items_of_cons.
  change ("<"%char :: lstr "item>" ++ body ++ ITEM_CLOSE ++ r)
    with (ITEM_OPEN ++ body ++ ITEM_CLOSE ++ r).
  rewrite prefixb_app_self, skipn_length_app, (break_on_find ITEM_CLOSE body r H). reflexivity.
Qed.

Lemma getField_cdata F v pre post : avoids (cdata_open F) pre = true ->
  avoids (cdata_close F) v = true ->
  getField (pre ++ cdata_open F ++ v ++ cdata_close F ++ post) F = to_str (trim v).
Proof.
  intros Hpre Hv. unfold getField.
  rewrite (cdata_match_skip _ _ pre _ Hpre), cdata_match_here; [reflexivity | |exact Hv].
  unfold cdata_open. cbn. discriminate.
Qed.

Lemma getField_plain F v pre post :
  avoids (cdata_open F) (pre ++ plain_open F ++ v ++ plain_close F ++ post) = true ->
  avoids (plain_open F) pre = true -> no_tag_chars v = true ->
  getField (pre ++ plain_open F ++ v ++ plain_close F ++ post) F = to_str (trim v).
Proof.
  intros Hc Hpre Hv. unfold getField.
  rewrite <- (app_nil_r (pre ++ plain_open F ++ v ++ plain_close F ++ post)) at 1.
  rewrite (cdata_match_skip _ _ _ [] Hc). cbn [cdata_match].
  rewrite (plain_match_skip _ _ pre _ Hpre).
  change (plain_close F) with ("<"%char :: lstr ("/" ++ F ++ ">")%string).
  rewrite plain_match_here; [reflexivity | |exact Hv].
  unfold plain_open. cbn. discriminate.
Qed.


Lemma clean_value_parts v : clean_value v = true ->
  no_tag_chars (lstr v) = true /\ to_str (trim (lstr v)) = v.
Proof.
  unfold clean_value. intros H. apply andb_true_iff in H as [H1 H2].
  split; [exact H1 | apply String.eqb_eq; exact H2].
Qed.

Lemma getField_render_cdata F v pre post : clean_value v = true ->
  avoids (cdata_open F) pre = true ->
  getField (pre ++ render_field true F v ++ post) F = v.
Proof.
  intros Hv Hpre. apply clean_value_parts in Hv as [Hn Ht]. cbn [render_field].
  rewrite <- !app_assoc, getField_cdata; [exact Ht | exact Hpre |].
  apply avoids_value; [reflexivity | exact Hn].
Qed.

Lemma getField_render_plain F v pre post : clean_value v = true ->
  avoids (cdata_open F) (pre ++ render_field false F v ++ post) = true ->
  avoids (plain_open F) pre = true ->
  getField (pre ++ render_field false F v ++ post) F = v.
Proof.
  intros Hv Hc Hpre. apply clean_value_parts in Hv as [Hn Ht]. cbn [render_field] in *.
  rewrite <- !app_assoc in *. rewrite getField_plain; assumption.
Qed.

Ltac avoid_solve :=
  repeat match goal with
  | |- avoids (cdata_open ?F) (plain_open ?F ++ ?v ++ ?c) = true =>
      change (cdata_open F) with (plain_open F ++ lstr "<![CDATA[");
      apply avoids_shadow;
        [cbv; discriminate | reflexivity | assumption
        | first [reflexivity | apply clash_app; reflexivity] | reflexivity | | ]
  | |- avoids _ (_ ++ _) = true => apply avoids_app
  | |- avoids _ (lstr _) = true => apply avoids_value; [reflexivity | assumption]
  | |- avoids _ _ = true => reflexivity
  end.

Lemma book_of_render cd b : clean_book b = true -> book_of_item (render_item cd b) = b.
Proof.
  destruct b as [t a c l]. unfold clean_book. cbn [title author cover link].
  intros H. repeat rewrite andb_true_iff in H. destruct H as [[[Ht Ha] Hc] Hl].
  pose proof (clean_value_parts _ Ht) as [Ht' _]. pose proof (clean_value_parts _ Ha) as [Ha' _].
  pose proof (clean_value_parts _ Hc) as [Hc' _]. pose proof (clean_value_parts _ Hl) as [Hl' _].
  unfold book_of_item, render_item, item_body. cbn [title author cover link].
  rewrite <- !app_assoc.
  set (rt := render_field cd "title" t). set (rl := render_field cd "link" l).
  set (rc := render_field cd "book_large_image_url" c). set (ra := render_field cd "author_name" a).
  f_equal.
  - destruct cd; [apply getField_render_cdata | apply getField_render_plain]; subst rt rl rc ra;
      first [assumption | cbn [render_field]; avoid_solve].
  - rewrite (app_assoc rl), (app_assoc rt), (app_assoc ITEM_OPEN).
    destruct cd; [apply getField_render_cdata | apply getField_render_plain]; subst rt rl rc ra;
      first [assumption | cbn [render_field]; avoid_solve].
  - rewrite (app_assoc rt), (app_assoc ITEM_OPEN).
    destruct cd; [apply getField_render_cdata | apply getField_render_plain]; subst rt rl rc ra;
      first [assumption | cbn [render_field]; avoid_solve].
  - rewrite (app_assoc ITEM_OPEN).
    destruct cd; [apply getField_render_cdata | apply getField_render_plain]; subst rt rl rc ra;
      first [assumption | cbn [render_field]; avoid_solve].
Qed.


Lemma avoids_close_body cd b : clean_book b = true -> avoids ITEM_CLOSE (item_body cd b) = true.
Proof.
  destruct b as [t a c l]. unfold clean_book. cbn [title author cover link].
  intros H. repeat rewrite andb_true_iff in H. destruct H as [[[Ht Ha] Hc] Hl].
  apply clean_value_parts in Ht as [Ht _]. apply clean_value_parts in Ha as [Ha _].
  apply clean_value_parts in Hc as [Hc _]. apply clean_value_parts in Hl as [Hl _].
  unfold item_body. cbn [title author cover link].
  destruct cd; cbn [render_field]; avoid_solve.
Qed.

Lemma items_of_feed cd bs : forallb clean_book bs = true ->
  items_of (lstr (render_feed cd bs)) = map (render_item cd) bs.
Proof.
  unfold render_feed, to_str, lstr at 1. rewrite list_ascii_of_string_of_list_ascii.
  rewrite items_of_skip by reflexivity.
  induction bs as [|b bs IH]; cbn [concat map forallb]; intros H; [reflexivity|].
  apply andb_true_iff in H as [Hb H].
  rewrite <- app_assoc. unfold render_item at 1. rewrite <- !app_assoc.
  rewrite items_of_here by (apply avoids_close_body; exact Hb).
  f_equal. exact (IH H).
Qed.

Lemma books_of_feed cd bs : forallb clean_book bs = true ->
  map book_of_item (items_of (lstr (render_feed cd bs))) = bs.
Proof.
  intros H. rewrite (items_of_feed cd bs H), map_map.
  rewrite (map_ext_in _ (fun b => b)); [apply map_id|].
  intros b Hin. apply book_of_render. rewrite forallb_forall in H. exact (H b Hin).
Qed.


Lemma items_of_no_open s : contains ITEM_OPEN s = false -> items_of s = [].
Proof.
  induction s as [|c s IH]; [reflexivity|]. cbn [contains]. intros H.
  apply orb_false_iff in H as [H1 H2]. rewrite items_of_cons, H1. exact (IH H2).
Qed.

Lemma parse_no_item xml : contains ITEM_OPEN (lstr xml) = false ->
  parseGoodreadsRSS xml = Goodreads.mkBooks None None.
Proof. intros H. unfold parseGoodreadsRSS. rewrite (items_of_no_open _ H). reflexivity. Qed.

Lemma parse_v1_no_item xml : contains ITEM_OPEN (lstr xml) = false ->
  parseGoodreadsRSS_v1 xml = GoodreadsV1.mkBooks None.
Proof. intros H. unfold parseGoodreadsRSS_v1. rewrite (items_of_no_open _ H). reflexivity. Qed.

End RssFacts.

(** ** Helper facts on the handlers *)

Lemma hasBookChanged_keeps_current b old :
  Goodreads.current old <> None -> Goodreads.hasBookChanged b (Some old) = true ->
  Goodreads.current b <> None.
Proof.
  unfold Goodreads.hasBookChanged. intros Hold Hch.
  destruct (Goodreads.current old); [|congruence].
  destruct (Goodreads.current b); [congruence | discriminate].
Qed.

Lemma goodreads_call_keeps_book c w :
  GrPolls.holds_book w -> GrPolls.holds_book (snd (GrPolls.goodreads_call c w)).
Proof.
  intros [e [Hs Hc]]. destruct c as [tr tw rss | t rss]; cbn [GrPolls.goodreads_call].
  - rewrite snd_then_ret. unfold Goodreads.fetch, Goodreads.fetch_body. mrun.
    all: unfold GrPolls.holds_book; cbn [store].
    all: eexists; split; [first [exact Hs | reflexivity] |].
    all: cbn [Goodreads.data]; first [exact Hc | eapply hasBookChanged_keeps_current; eassumption].
  - unfold Goodreads.scheduled. mrun.
    all: unfold GrPolls.holds_book; cbn [store].
    all: eexists; split; [first [exact Hs | reflexivity] |].
    all: cbn [Goodreads.data truthy_obj option_map] in *;
         repeat match goal with H : negb _ && true = false |- _ =>
           rewrite andb_true_r, negb_false_iff in H end.
    all: first [exact Hc | eapply hasBookChanged_keeps_current; eassumption].
Qed.

Lemma getRecentlyPlayed_not_playing r t :
  SpotifyApi.getRecentlyPlayed r = Fetched (Some t) -> Spotify.isPlaying t = false.
Proof.
  unfold SpotifyApi.getRecentlyPlayed. intros H.
  destruct r as [resp|m]; [|discriminate].
  destruct (negb (SpotifyApi.rp_status resp =? 200)); [discriminate|].
  destruct (SpotifyApi.rp_body resp) as [m| | |l]; try discriminate.
  destruct (match nth_error l 0 with
            | Some h => if truthy_obj (SpotifyApi.ph_track h) then SpotifyApi.ph_track h
                        else SpotifyApi.ph_episode h
            | None => None
            end) as [it|]; [|discriminate].
  injection H as <-. reflexivity.
Qed.

Lemma getNowPlaying_204 resp :
  SpotifyApi.np_status resp = 204 -> SpotifyApi.getNowPlaying (Fetched resp) = Fetched None.
Proof. intros H. unfold SpotifyApi.getNowPlaying. rewrite H. reflexivity. Qed.

(** ** Extra properties *)

(** X1. goodreads-worker.js [parseGoodreadsRSS] reads back any feed of
    books rendered as Goodreads does (every field in CDATA, or every field
    as plain text), provided the field values contain no ['<'] or [']']
    and no surrounding white space: [current] is the first book and
    [previous] the second, or [null] when there are fewer. *)
Theorem parseGoodreadsRSS_roundtrip (cd : bool) (bs : list book)
  (H : forallb Rss.clean_book bs = true) :
  Rss.parseGoodreadsRSS (Rss.render_feed cd bs)
  = Goodreads.mkBooks (nth_error bs 0) (nth_error bs 1).
Proof.
  unfold Rss.parseGoodreadsRSS. pose proof (RssFacts.books_of_feed cd bs H) as E.
  destruct (Rss.items_of (Rss.lstr (Rss.render_feed cd bs))) as [|i is] eqn:Ei.
  - cbn in E. subst bs. reflexivity.
  - rewrite E. reflexivity.
Qed.

Lemma parseGoodreadsRSS_roundtrip_witness :
  forallb Rss.clean_book [Samples.dune_a; Samples.dune_b; Samples.dune_a] = true /\
  Rss.parseGoodreadsRSS (Rss.render_feed true [Samples.dune_a; Samples.dune_b; Samples.dune_a])
  = Goodreads.mkBooks (Some Samples.dune_a) (Some Samples.dune_b).
Proof.
  split; [vm_compute; reflexivity|].
  apply (parseGoodreadsRSS_roundtrip true [Samples.dune_a; Samples.dune_b; Samples.dune_a]).
  vm_compute; reflexivity.
Defined.

(** X2. The older worker's [parseGoodreadsRSS] (part_001) reads back the
    first book of such a feed as [current], or [null] for a feed with no
    book. *)
Theorem parseGoodreadsRSS_v1_roundtrip (cd : bool) (bs : list book)
  (H : forallb Rss.clean_book bs = true) :
  Rss.parseGoodreadsRSS_v1 (Rss.render_feed cd bs) = GoodreadsV1.mkBooks (nth_error bs 0).
Proof.
  unfold Rss.parseGoodreadsRSS_v1. pose proof (RssFacts.books_of_feed cd bs H) as E.
  destruct (Rss.items_of (Rss.lstr (Rss.render_feed cd bs))) as [|i is] eqn:Ei.
  - cbn in E. subst bs. reflexivity.
  - rewrite E. reflexivity.
Qed.

Lemma parseGoodreadsRSS_v1_roundtrip_witness :
  forallb Rss.clean_book [Samples.dune_b; Samples.dune_a] = true /\
  Rss.parseGoodreadsRSS_v1 (Rss.render_feed false [Samples.dune_b; Samples.dune_a])
  = GoodreadsV1.mkBooks (Some Samples.dune_b).
Proof.
  split; [vm_compute; reflexivity|].
  apply (parseGoodreadsRSS_v1_roundtrip false [Samples.dune_b; Samples.dune_a]).
  vm_compute; reflexivity.
Defined.

(** X3. goodreads-worker.js: when the feed text contains no [<item>]
    (an error or login page), a KV entry holding a book survives both
    handlers: past the cache age an on-demand request answers
    [{current: null, previous: null}] and re-stores the stored data with a
    new timestamp, and a cron tick writes nothing. *)
Theorem itemless_feed_keeps_stored_book (xml : string) (w : world Goodreads.entry)
  t_read t_write now e eb
  (Hxml : Rss.contains Rss.ITEM_OPEN (Rss.lstr xml) = false)
  (Hup : kv_up w = true) (Hs : store w = Some (mkStored e None))
  (Hst : Goodreads.cacheValid (Some e) t_read = false)
  (Hec : Goodreads.current (Goodreads.data e) = Some eb) :
  Goodreads.fetch t_read t_write (Fetched (Rss.parseGoodreadsRSS xml)) w =
    (Ok (RespJSON (Goodreads.mkBooks None None)),
     mkWorld true (Some (mkStored (Goodreads.mkEntry (Goodreads.data e) t_write) None))
       (EPut (mkStored (Goodreads.mkEntry (Goodreads.data e) t_write) None)
          :: EUpstream "goodreads rss" :: trace w)) /\
  snd (Goodreads.scheduled now (Fetched (Rss.parseGoodreadsRSS xml)) w) =
    mkWorld true (store w) (EUpstream "goodreads rss" :: trace w).
Proof.
  rewrite (RssFacts.parse_no_item xml Hxml). split.
  - unfold Goodreads.fetch, Goodreads.fetch_body, catch, bind, kv_get.
    rewrite Hup, Hs; cbn [lookup sexp sval]. rewrite Hst. cbn.
    unfold Goodreads.hasBookChanged; cbn; rewrite Hec. cbn.
    unfold kv_put; rewrite Hup; reflexivity.
  - unfold Goodreads.scheduled, catch, bind, kv_get.
    rewrite Hup, Hs; cbn. unfold Goodreads.hasBookChanged; cbn; rewrite Hec. cbn.
    rewrite Hup, Hs. reflexivity.
Qed.

Lemma itemless_feed_keeps_stored_book_witness :
  Goodreads.fetch 3601000 3601000
    (Fetched (Rss.parseGoodreadsRSS "<html><body>Service Unavailable</body></html>"))
    Samples.gr_world =
    (Ok (RespJSON (Goodreads.mkBooks None None)),
     mkWorld true (Some (mkStored (Goodreads.mkEntry Samples.gr_dune_a 3601000) None))
       [EPut (mkStored (Goodreads.mkEntry Samples.gr_dune_a 3601000) None);
        EUpstream "goodreads rss"]) /\
  snd (Goodreads.scheduled 5000
         (Fetched (Rss.parseGoodreadsRSS "<html><body>Service Unavailable</body></html>"))
         Samples.gr_world) =
    mkWorld true (store Samples.gr_world) [EUpstream "goodreads rss"].
Proof.
  apply (itemless_feed_keeps_stored_book "<html><body>Service Unavailable</body></html>"
           Samples.gr_world 3601000 3601000 5000 (Goodreads.mkEntry Samples.gr_dune_a 1000)
           Samples.dune_a); vm_compute; reflexivity.
Defined.

(** X4. goodreads-worker.js never loses a stored book: once KV holds an
    entry whose [current] is a book, it still does after any sequence of
    on-demand requests and cron ticks, whatever the feed requests return
    (failures, empty feeds, other books) and whatever the clock and KV
    availability. *)
Theorem goodreads_never_loses_current_book (calls : list GrPolls.call)
  (w : world Goodreads.entry) (H : GrPolls.holds_book w) :
  GrPolls.holds_book (run_seq (map GrPolls.goodreads_call calls) w).
Proof.
  revert w H; induction calls as [|c cs IH]; intros w H; cbn [map run_seq]; [exact H|].
  apply IH, goodreads_call_keeps_book, H.
Qed.

Lemma goodreads_never_loses_current_book_witness :
  GrPolls.holds_book Samples.gr_world /\
  GrPolls.holds_book
    (run_seq (map GrPolls.goodreads_call
                [GrPolls.Cron 5000 (FetchFailed "Goodreads RSS returned 503");
                 GrPolls.Request 3601000 3601000 (Fetched Samples.gr_empty);
                 GrPolls.Cron 7300000 (Fetched Samples.gr_empty);
                 GrPolls.Request 7300000 7300001 (Fetched Samples.gr_dune_b)])
       Samples.gr_world).
Proof.
  split.
  - exists (Goodreads.mkEntry Samples.gr_dune_a 1000); split; [reflexivity | discriminate].
  - apply goodreads_never_loses_current_book.
    exists (Goodreads.mkEntry Samples.gr_dune_a 1000); split; [reflexivity | discriminate].
Defined.

(** X5. The older worker (part_001) has no such guard: when the feed text
    contains no [<item>], an on-demand request past the cache age and a
    cron tick both overwrite a stored book with [{current: null}]. *)
Theorem v1_itemless_feed_erases_book (xml : string) (w : world GoodreadsV1.entry)
  t_read t_write now e eb
  (Hxml : Rss.contains Rss.ITEM_OPEN (Rss.lstr xml) = false)
  (Hup : kv_up w = true) (Hs : store w = Some (mkStored e None))
  (Hst : GoodreadsV1.cacheValid (Some e) t_read = false)
  (Hec : GoodreadsV1.current (GoodreadsV1.data e) = Some eb) :
  store (snd (GoodreadsV1.fetch t_read t_write (Fetched (Rss.parseGoodreadsRSS_v1 xml)) w))
    = Some (mkStored (GoodreadsV1.mkEntry (GoodreadsV1.mkBooks None) t_write) None) /\
  store (snd (GoodreadsV1.scheduled now (Fetched (Rss.parseGoodreadsRSS_v1 xml)) w))
    = Some (mkStored (GoodreadsV1.mkEntry (GoodreadsV1.mkBooks None) now) None).
Proof.
  rewrite (RssFacts.parse_v1_no_item xml Hxml). split.
  - unfold GoodreadsV1.fetch, GoodreadsV1.fetch_body, catch, bind, kv_get.
    rewrite Hup, Hs; cbn [lookup sexp sval]. rewrite Hst. cbn.
    unfold GoodreadsV1.bookChanged; cbn; rewrite Hec. cbn.
    unfold kv_put; rewrite Hup; reflexivity.
  - unfold GoodreadsV1.scheduled, catch, bind, kv_get.
    rewrite Hup, Hs; cbn. unfold GoodreadsV1.bookChanged; cbn; rewrite Hec. cbn.
    unfold kv_put; rewrite Hup. reflexivity.
Qed.

Lemma v1_itemless_feed_erases_book_witness :
  store (snd (GoodreadsV1.fetch 3601000 3601000
                (Fetched (Rss.parseGoodreadsRSS_v1 "<html>Service Unavailable</html>"))
                Samples.v1_world))
    = Some (mkStored (GoodreadsV1.mkEntry (GoodreadsV1.mkBooks None) 3601000) None) /\
  store (snd (GoodreadsV1.scheduled 5000
                (Fetched (Rss.parseGoodreadsRSS_v1 "<html>Service Unavailable</html>"))
                Samples.v1_world))
    = Some (mkStored (GoodreadsV1.mkEntry (GoodreadsV1.mkBooks None) 5000) None).
Proof.
  apply (v1_itemless_feed_erases_book "<html>Service Unavailable</html>" Samples.v1_world
           3601000 3601000 5000 (GoodreadsV1.mkEntry Samples.v1_dune_a 1000) Samples.dune_a);
    vm_compute; reflexivity.
Defined.

(** X6. spotify-worker.js, cron path: the scheduled handler never stores
    an entry with [data: null]; it either leaves KV as it was or stores a
    track with [timestamp = lastRun = now] and the 300 s TTL. *)
Theorem spotify_scheduled_never_stores_null (w : world Spotify.entry) now tok np rp :
  store (snd (Spotify.scheduled now tok np rp w)) = store w \/
  exists t, store (snd (Spotify.scheduled now tok np rp w)) =
            Some (mkStored (Spotify.mkEntry (Some t) now now)
                    (Some (now + Spotify.KV_TTL * 1000))).
Proof.
  unfold Spotify.scheduled, Spotify.latest; mrun.
  all: first [left; reflexivity | right; eexists; reflexivity].
Qed.

(** X7. [tracksEqual] does not depend on the order of its arguments. *)
Theorem tracksEqual_sym (t1 t2 : option Spotify.track) :
  Spotify.tracksEqual t1 t2 = Spotify.tracksEqual t2 t1.
Proof.
  destruct t1 as [a|], t2 as [b|]; cbn; try reflexivity.
  rewrite (andb_comm (Spotify.truthy_id (Spotify.trackId b))).
  destruct (Spotify.truthy_id (Spotify.trackId a) && Spotify.truthy_id (Spotify.trackId b)).
  - f_equal.
    + destruct (Spotify.trackId a), (Spotify.trackId b); cbn; try reflexivity.
      apply String.eqb_sym.
    + destruct (Spotify.isPlaying a), (Spotify.isPlaying b); reflexivity.
  - apply Bool.eq_iff_eq_true. rewrite !json_eqb_iff. split; intros; congruence.
Qed.

(** X8. spotify-worker.js: when the currently-playing request answers an
    HTTP status other than 200 and 204 (a rate limit, say), an on-demand
    request past the 30 s cache answers the 500 error
    ["Spotify API error: <status>"] and writes nothing, and a cron tick
    that is not throttled writes nothing either; neither calls
    recently-played. *)
Theorem currently_playing_error_no_write (w : world Spotify.entry) t_read t_write now
  (npresp : SpotifyApi.np_response) (rpr : outcome SpotifyApi.rp_response)
  (Hup : kv_up w = true)
  (Hfresh : Spotify.cacheFresh (lookup t_read (store w)) t_read = false)
  (Hsoon : Spotify.tooSoon (lookup now (store w)) now = false)
  (H200 : SpotifyApi.np_status npresp <> 200) (H204 : SpotifyApi.np_status npresp <> 204) :
  Spotify.fetch t_read t_write (Fetched tt) (SpotifyApi.getNowPlaying (Fetched npresp))
    (SpotifyApi.getRecentlyPlayed rpr) w
  = (Ok (RespError500 ("Spotify API error: "
                       ++ SpotifyApi.string_of_Z (SpotifyApi.np_status npresp))),
     mkWorld true (store w) (EUpstream "currently-playing" :: EUpstream "token" :: trace w)) /\
  snd (Spotify.scheduled now (Fetched tt) (SpotifyApi.getNowPlaying (Fetched npresp))
         (SpotifyApi.getRecentlyPlayed rpr) w)
  = mkWorld true (store w) (EUpstream "currently-playing" :: EUpstream "token" :: trace w).
Proof.
  assert (Hnp : SpotifyApi.getNowPlaying (Fetched npresp) =
                FetchFailed ("Spotify API error: "
                             ++ SpotifyApi.string_of_Z (SpotifyApi.np_status npresp))).
  { unfold SpotifyApi.getNowPlaying.
    replace (SpotifyApi.np_status npresp =? 204) with false by lia.
    replace (SpotifyApi.np_status npresp =? 200) with false by lia. reflexivity. }
  rewrite Hnp. split.
  - unfold Spotify.fetch, Spotify.fetch_body, catch, bind, kv_get.
    rewrite Hup, Hfresh. unfold upstream; cbn. rewrite Hup. reflexivity.
  - unfold Spotify.scheduled, catch, bind, kv_get.
    rewrite Hup, Hsoon. unfold attempt, upstream; cbn. rewrite Hup. reflexivity.
Qed.

Lemma currently_playing_error_no_write_witness :
  Spotify.fetch 40000 40000 (Fetched tt)
    (SpotifyApi.getNowPlaying (Fetched (SpotifyApi.mkNPResponse 429 "" SpotifyApi.NPInvalid)))
    (SpotifyApi.getRecentlyPlayed (FetchFailed "unreachable")) Samples.sp_world
  = (Ok (RespError500 "Spotify API error: 429"),
     mkWorld true (store Samples.sp_world)
       [EUpstream "currently-playing"; EUpstream "token"]) /\
  snd (Spotify.scheduled 200000 (Fetched tt)
         (SpotifyApi.getNowPlaying (Fetched (SpotifyApi.mkNPResponse 429 "" SpotifyApi.NPInvalid)))
         (SpotifyApi.getRecentlyPlayed (FetchFailed "unreachable")) Samples.sp_world)
  = mkWorld true (store Samples.sp_world) [EUpstream "currently-playing"; EUpstream "token"].
Proof.
  apply (currently_playing_error_no_write Samples.sp_world 40000 40000 200000
           (SpotifyApi.mkNPResponse 429 "" SpotifyApi.NPInvalid) (FetchFailed "unreachable"));
    vm_compute; first [reflexivity | discriminate].
Defined.

(** X9. spotify-worker.js: when the currently-playing request answers 204
    (nothing playing), a track that an on-demand request past the 30 s
    cache answers with is never marked as playing: it comes from
    recently-played, which always sets [isPlaying: false]. *)
Theorem nothing_playing_reports_not_playing (w : world Spotify.entry) t_read t_write tok
  (npresp : SpotifyApi.np_response) (rpr : outcome SpotifyApi.rp_response) (t : Spotify.track)
  (Hfresh : Spotify.cacheFresh (lookup t_read (store w)) t_read = false)
  (H204 : SpotifyApi.np_status npresp = 204)
  (Hres : fst (Spotify.fetch t_read t_write tok (SpotifyApi.getNowPlaying (Fetched npresp))
                 (SpotifyApi.getRecentlyPlayed rpr) w) = Ok (RespJSON (Some t))) :
  Spotify.isPlaying t = false.
Proof.
  rewrite (getNowPlaying_204 npresp H204) in Hres.
  unfold Spotify.fetch, Spotify.fetch_body, catch, bind, kv_get in Hres.
  destruct (kv_up w); [|discriminate]. rewrite Hfresh in Hres.
  unfold upstream, kv_put, ret in Hres. cbn in Hres.
  destruct tok; [|discriminate].
  destruct (SpotifyApi.getRecentlyPlayed rpr) as [r|] eqn:Er; [|discriminate].
  cbn in Hres.
  destruct (negb (Spotify.tracksEqual r (Spotify.dataOf (lookup t_read (store w))))); cbn in Hres;
    [destruct (kv_up w); cbn in Hres; [|discriminate] |];
    injection Hres as ->; exact (getRecentlyPlayed_not_playing rpr t Er).
Qed.

Lemma nothing_playing_reports_not_playing_witness :
  Spotify.isPlaying (SpotifyApi.recent_track ApiSamples.song) = false.
Proof.
  apply (nothing_playing_reports_not_playing Samples.sp_world 40000 40000 (Fetched tt)
           ApiSamples.np_nothing ApiSamples.rp_song); vm_compute; reflexivity.
Defined.

(** X10. spotify-worker.js: the two adapters build the same record for a
    music item (type ["track"]) with a non-empty artist list, apart from
    [isPlaying], [title] and [artist]: the titles agree exactly when the
    item's name is not empty ([getNowPlaying] writes ['Unknown Title']
    for an empty one), and the artists agree exactly when the joined
    artist names are not empty ([getRecentlyPlayed] writes
    ['Unknown Artist'] for an empty join, [getNowPlaying] keeps it). *)
Theorem music_item_adapters_agree (d : SpotifyApi.playing) (it : SpotifyApi.item)
  (l : list SpotifyApi.artist)
  (Hty : SpotifyApi.item_type it = Some "track")
  (Hcpt : SpotifyApi.currently_playing_type d = Some "track")
  (Hart : SpotifyApi.artists it = Some l) (Hl : l <> []) :
  let np := SpotifyApi.now_playing_track d it in
  let rp := SpotifyApi.recent_track it in
  Spotify.album np = Spotify.album rp /\ Spotify.albumArt np = Spotify.albumArt rp /\
  Spotify.songUrl np = Spotify.songUrl rp /\ Spotify.trackId np = Spotify.trackId rp /\
  Spotify.type np = Spotify.type rp /\
  (Spotify.title np = Spotify.title rp <-> SpotifyApi.name it <> "") /\
  (Spotify.artist np = Spotify.artist rp <->
   SpotifyApi.join ", " (SpotifyApi.artist_names l) <> "").
Proof.
  intros np rp. subst np rp.
  unfold SpotifyApi.now_playing_track, SpotifyApi.recent_track.
  rewrite Hty, Hcpt, Hart. destruct l as [|a l]; [congruence|].
  cbn -[SpotifyApi.join SpotifyApi.artist_names].
  set (j := SpotifyApi.join ", " (SpotifyApi.artist_names (a :: l))).
  repeat split; try reflexivity.
  - destruct (String.eqb_spec (SpotifyApi.name it) "") as [e|e]; [|tauto].
    rewrite e; intros H; discriminate H.
  - destruct (String.eqb_spec (SpotifyApi.name it) "") as [e|e]; [contradiction|reflexivity].
  - destruct (String.eqb_spec j "") as [e|e]; [|tauto].
    rewrite e; intros H; discriminate H.
  - destruct (String.eqb_spec j "") as [e|e]; [contradiction|reflexivity].
Qed.

Lemma music_item_adapters_agree_witness :
  let np := SpotifyApi.now_playing_track ApiSamples.playing_song ApiSamples.song in
  let rp := SpotifyApi.recent_track ApiSamples.song in
  Spotify.album np = Spotify.album rp /\ Spotify.albumArt np = Spotify.albumArt rp /\
  Spotify.songUrl np = Spotify.songUrl rp /\ Spotify.trackId np = Spotify.trackId rp /\
  Spotify.type np = Spotify.type rp /\
  (Spotify.title np = Spotify.title rp <-> SpotifyApi.name ApiSamples.song <> "") /\
  (Spotify.artist np = Spotify.artist rp <->
   SpotifyApi.join ", " (SpotifyApi.artist_names [SpotifyApi.mkArtist (Some "Band")]) <> "").
Proof.
  apply (music_item_adapters_agree ApiSamples.playing_song ApiSamples.song
           [SpotifyApi.mkArtist (Some "Band")]); vm_compute; first [reflexivity | discriminate].
Defined.

(** X11. spotify-worker.js: when nothing is playing (currently-playing
    answers 204) and recently-played gives no item (a non-200 status or
    an empty [items] list), an on-demand request past the 30 s cache
    answers [null] and, if the cache held a track, overwrites it with a
    [null] track for 300 s. *)
Theorem fetch_nothing_found_erases_track (w : world Spotify.entry) t_read t_write
  (npresp : SpotifyApi.np_response) (rpresp : SpotifyApi.rp_response) (t0 : Spotify.track)
  (Hup : kv_up w = true)
  (Hfresh : Spotify.cacheFresh (lookup t_read (store w)) t_read = false)
  (Hold : Spotify.dataOf (lookup t_read (store w)) = Some t0)
  (H204 : SpotifyApi.np_status npresp = 204)
  (Hrp : SpotifyApi.rp_status rpresp <> 200 \/ SpotifyApi.rp_body rpresp = SpotifyApi.RPItems []) :
  Spotify.fetch t_read t_write (Fetched tt) (SpotifyApi.getNowPlaying (Fetched npresp))
    (SpotifyApi.getRecentlyPlayed (Fetched rpresp)) w
  = (Ok (RespJSON None),
     let s := mkStored (Spotify.mkEntry None t_write t_write)
                       (Some (t_write + Spotify.KV_TTL * 1000)) in
     mkWorld true (Some s)
       (EPut s :: EUpstream "recently-played" :: EUpstream "currently-playing"
        :: EUpstream "token" :: trace w)).
Proof.
  rewrite (getNowPlaying_204 npresp H204).
  assert (Hrp' : SpotifyApi.getRecentlyPlayed (Fetched rpresp) = Fetched None).
  { unfold SpotifyApi.getRecentlyPlayed.
    destruct Hrp as [Hs | Hb].
    - replace (SpotifyApi.rp_status rpresp =? 200) with false by lia. reflexivity.
    - rewrite Hb. destruct (SpotifyApi.rp_status rpresp =? 200); reflexivity. }
  rewrite Hrp'.
  unfold Spotify.fetch, Spotify.fetch_body, catch, bind, kv_get.
  rewrite Hup, Hfresh, Hold. unfold upstream, kv_put, ret; cbn. rewrite Hup. reflexivity.
Qed.

Lemma fetch_nothing_found_erases_track_witness :
  Spotify.fetch 40000 40000 (Fetched tt) (SpotifyApi.getNowPlaying (Fetched ApiSamples.np_nothing))
    (SpotifyApi.getRecentlyPlayed (Fetched (SpotifyApi.mkRPResponse 200 (SpotifyApi.RPItems []))))
    Samples.sp_world
  = (Ok (RespJSON None),
     let s := mkStored (Spotify.mkEntry None 40000 40000) (Some (40000 + Spotify.KV_TTL * 1000)) in
     mkWorld true (Some s)
       (EPut s :: EUpstream "recently-played" :: EUpstream "currently-playing"
        :: EUpstream "token" :: trace Samples.sp_world)).
Proof.
  apply (fetch_nothing_found_erases_track Samples.sp_world 40000 40000 ApiSamples.np_nothing
           (SpotifyApi.mkRPResponse 200 (SpotifyApi.RPItems [])) Samples.t1_playing);
    vm_compute; first [reflexivity | discriminate | right; reflexivity].
Defined.
